(** * CssGridGenerator: selection geometry, code generation and the
      layout state engine, embedded from the TypeScript sources.

    - [src/utils/selection.ts]  : cell keys, rectangle test, bounding box,
      greedy rectangle partition;
    - [src/types/grid.ts]       : the data model and its default factories;
    - [src/utils/codegen.ts]    : [toClassName], [generateTemplateAreas] and
      the generators of the style sheet and of the markup;
    - [src/hooks/useGridState.ts]: the state engine with undo/redo,
      export and import.

    Modelling conventions.  JavaScript numbers that hold grid indices,
    counts and sizes are integers of [Z]; template literals over them are
    their decimal notation.  A JavaScript [Set<string>] iterates in
    insertion order, so it is a duplicate-free [list string].  A [while]
    loop runs on fuel; the lemmas on each loop show that the fuel handed
    out by its caller is never used up.  Arrays built from track counts are
    taken to stay below the length limit of the runtime, except in
    [generateTemplateAreas] where the limit is modelled. *)

From Stdlib Require Import ZArith List Bool Lia Ascii String.
From Stdlib Require DecimalString DecimalZ DecimalPos Finite Permutation.
Import ListNotations.

Local Open Scope string_scope.
Local Open Scope list_scope.
Local Open Scope Z_scope.

(* ================================================================= *)
(** ** Host primitives: decimal notation, [split], [Number] *)

(** [`${n}`] for an integer [n]. *)
Definition string_of_Z (n : Z) : string :=
  DecimalString.NilZero.string_of_int (Z.to_int n).

(** [Number(s)] on decimal digits with an optional leading minus sign;
    [None] stands for every other string (where JavaScript answers NaN or
    reads another notation). *)
Definition Number (s : string) : option Z :=
  option_map Z.of_int (DecimalString.NilZero.int_of_string s).

(** [s.split(sep)] for a one-character separator. *)
Fixpoint split (sep : ascii) (s : string) : list string :=
  match s with
  | EmptyString => [EmptyString]
  | String a s' =>
      if Ascii.eqb a sep then EmptyString :: split sep s'
      else match split sep s' with
           | [] => [String a EmptyString]
           | w :: ws => String a w :: ws
           end
  end.

(** Integers [lo, lo+1, ..., hi] in increasing order: the values taken by
    the counter of [for (let i = lo; i <= hi; i++)]. *)
Definition zrange (lo hi : Z) : list Z :=
  map (fun i => lo + Z.of_nat i) (seq 0 (Z.to_nat (hi - lo + 1))).

(** [Math.min(...xs)] and [Math.max(...xs)] on a non-empty list.  On the
    empty list JavaScript answers [Infinity] and [-Infinity]; every caller
    embedded here guards that case before the call, and the value chosen
    for it below is never looked at. *)
Definition Math_min (xs : list Z) : Z :=
  match xs with
  | [] => 0
  | x :: xs' => fold_left Z.min xs' x
  end.

Definition Math_max (xs : list Z) : Z :=
  match xs with
  | [] => 0
  | x :: xs' => fold_left Z.max xs' x
  end.

(* ================================================================= *)
(** ** [src/types/grid.ts]: the data model *)

Record GridCell : Type := mkCell { row : Z; column : Z }.

Inductive TrackSize : Type :=
| TS_fr (value : Z)
| TS_px (value : Z)
| TS_percent (value : Z)
| TS_auto
| TS_minmax (min max : string).

Inductive PlaceItems : Type :=
| PI_start | PI_end | PI_center | PI_stretch | PI_normal.

(** ['start' | 'end' | 'center' | 'stretch'] of [justifySelf], [alignSelf]. *)
Inductive SelfAlign : Type :=
| SA_start | SA_end | SA_center | SA_stretch.

Record GridDefinition : Type := mkGrid {
  rowCount : Z;
  columnCount : Z;
  rowSizes : list TrackSize;
  columnSizes : list TrackSize;
  gap : Z;
  rowGap : Z;
  columnGap : Z;
  placeItems : PlaceItems
}.

(** Optional properties ([areaName?], [justifySelf?], [alignSelf?]) are
    [option]s: an absent key and a key holding [undefined] are the same
    value of the type, and the code reads both alike ([??], truthiness). *)
Record GridChild : Type := mkChild {
  id : string;
  name : string;
  cells : list GridCell;
  locked : bool;
  areaName : option string;
  justifySelf : option SelfAlign;
  alignSelf : option SelfAlign
}.

Inductive BreakpointId : Type := desktop | tablet | mobile.

Record BreakpointConfig : Type := mkConfig {
  grid : GridDefinition;
  children : list GridChild
}.

(** [Record<BreakpointId, BreakpointConfig>]. *)
Record Breakpoints : Type := mkBreakpoints {
  bp_desktop : BreakpointConfig;
  bp_tablet : BreakpointConfig;
  bp_mobile : BreakpointConfig
}.

Record LayoutState : Type := mkLayout {
  activeBreakpoint : BreakpointId;
  breakpoints : Breakpoints
}.

(** [bps[bp]] *)
Definition bp_get (bps : Breakpoints) (bp : BreakpointId) : BreakpointConfig :=
  match bp with
  | desktop => bp_desktop bps
  | tablet => bp_tablet bps
  | mobile => bp_mobile bps
  end.

(** [{ ...bps, [bp]: cfg }] *)
Definition bp_set (bps : Breakpoints) (bp : BreakpointId)
    (cfg : BreakpointConfig) : Breakpoints :=
  match bp with
  | desktop => mkBreakpoints cfg (bp_tablet bps) (bp_mobile bps)
  | tablet => mkBreakpoints (bp_desktop bps) cfg (bp_mobile bps)
  | mobile => mkBreakpoints (bp_desktop bps) (bp_tablet bps) cfg
  end.

Definition defaultTrackSize : TrackSize := TS_fr 1.

(** [Array.from({ length: n }, () => v)] *)
Definition Array_from {A : Type} (n : Z) (v : A) : list A :=
  repeat v (Z.to_nat n).

Definition defaultGridDefinition (rowCount columnCount : Z) : GridDefinition :=
  {| rowCount := rowCount;
     columnCount := columnCount;
     rowSizes := Array_from rowCount defaultTrackSize;
     columnSizes := Array_from columnCount defaultTrackSize;
     gap := 16;
     rowGap := 16;
     columnGap := 16;
     placeItems := PI_stretch |}.

Definition defaultBreakpointConfig (rowCount columnCount : Z)
    : BreakpointConfig :=
  {| grid := defaultGridDefinition rowCount columnCount;
     children := [] |}.

Definition defaultLayoutState : LayoutState :=
  {| activeBreakpoint := desktop;
     breakpoints :=
       {| bp_desktop := defaultBreakpointConfig 3 4;
          bp_tablet := defaultBreakpointConfig 3 3;
          bp_mobile := defaultBreakpointConfig 4 2 |} |}.

(* ================================================================= *)
(** ** [src/utils/selection.ts] *)

(** [`${cell.row},${cell.column}`] *)
Definition cellKey (cell : GridCell) : string :=
  (string_of_Z (row cell) ++ "," ++ string_of_Z (column cell))%string.

(** A [Set<string>]: its elements in insertion order, each once. *)
Definition KeySet : Type := list string.

Definition set_has (s : KeySet) (k : string) : bool :=
  existsb (String.eqb k) s.

Definition set_add (s : KeySet) (k : string) : KeySet :=
  if set_has s k then s else s ++ [k].

Definition set_delete (s : KeySet) (k : string) : KeySet :=
  filter (fun k' => negb (String.eqb k' k)) s.

(** [new Set(keys)] *)
Definition Set_of (keys : list string) : KeySet :=
  fold_left set_add keys [].

Definition cellKeySet (cells : list GridCell) : KeySet :=
  Set_of (map cellKey cells).

Definition isRectangularSelection (cells : list GridCell) : bool :=
  match cells with
  | [] => false
  | _ =>
      let rows := map row cells in
      let cols := map column cells in
      let minR := Math_min rows in
      let maxR := Math_max rows in
      let minC := Math_min cols in
      let maxC := Math_max cols in
      let expectedCount := (maxR - minR + 1) * (maxC - minC + 1) in
      Z.of_nat (List.length cells) =? expectedCount
  end.

(** The cells pushed by the two nested [for] loops over
    [r0..r1] and [c0..c1], in push order. *)
Definition box (r0 r1 c0 c1 : Z) : list GridCell :=
  flat_map (fun r => map (fun c => mkCell r c) (zrange c0 c1)) (zrange r0 r1).

Definition expandToBoundingBox (cells : list GridCell) : list GridCell :=
  match cells with
  | [] => []
  | _ =>
      let rows := map row cells in
      let cols := map column cells in
      let minR := Math_min rows in
      let maxR := Math_max rows in
      let minC := Math_min cols in
      let maxC := Math_max cols in
      box minR maxR minC maxC
  end.

(** *** [splitIntoRectangles] *)

(** The closure [has(r, c)] over the working set. *)
Definition has (set : KeySet) (r c : Z) : bool :=
  set_has set (string_of_Z r ++ "," ++ string_of_Z c)%string.

Definition removeRegion (set : KeySet) (region : list GridCell) : KeySet :=
  fold_left (fun s cell => set_delete s (cellKey cell)) region set.

(** [const [r0, c0] = firstKey.split(',').map(Number)] *)
Definition parseKey (k : string) : option (Z * Z) :=
  match map Number (split "," k) with
  | Some r0 :: Some c0 :: _ => Some (r0, c0)
  | _ => None
  end.

(** [while (has(r0, cEnd + 1)) cEnd++] *)
Fixpoint growRight (fuel : nat) (set : KeySet) (r0 cEnd : Z) : option Z :=
  match fuel with
  | O => None
  | S fuel' =>
      if has set r0 (cEnd + 1) then growRight fuel' set r0 (cEnd + 1)
      else Some cEnd
  end.

(** The labelled [rowLoop]: the inner [for] breaks out of it at the first
    missing cell of row [rEnd + 1]; otherwise [rEnd++] and again. *)
Fixpoint growDown (fuel : nat) (set : KeySet) (c0 cEnd rEnd : Z) : option Z :=
  match fuel with
  | O => None
  | S fuel' =>
      if forallb (fun c => has set (rEnd + 1) c) (zrange c0 cEnd)
      then growDown fuel' set c0 cEnd (rEnd + 1)
      else Some rEnd
  end.

Definition collectRegion (set : KeySet) (r0 rEnd c0 cEnd : Z) : list GridCell :=
  flat_map (fun r =>
    flat_map (fun c => if has set r c then [mkCell r c] else [])
             (zrange c0 cEnd))
    (zrange r0 rEnd).

(** The outer [while (set.size > 0)] with its accumulator [result]. *)
Fixpoint splitLoop (fuel : nat) (set : KeySet) (result : list (list GridCell))
    : option (list (list GridCell)) :=
  match set with
  | [] => Some result
  | firstKey :: _ =>
      match fuel with
      | O => None
      | S fuel' =>
          match parseKey firstKey with
          | None => None
          | Some (r0, c0) =>
              match growRight (S (List.length set)) set r0 c0 with
              | None => None
              | Some cEnd =>
                  match growDown (S (List.length set)) set c0 cEnd r0 with
                  | None => None
                  | Some rEnd =>
                      let region := collectRegion set r0 rEnd c0 cEnd in
                      splitLoop fuel' (removeRegion set region)
                                (result ++ [region])
                  end
              end
          end
      end
  end.

Definition splitIntoRectangles (cells : list GridCell)
    : option (list (list GridCell)) :=
  match cells with
  | [] => Some []
  | _ =>
      let set := cellKeySet cells in
      splitLoop (List.length set) set []
  end.

(* ================================================================= *)
(** ** [src/utils/codegen.ts] *)

(** Characters matched by [\s] among the first 128 code points. *)
Definition is_space (a : ascii) : bool :=
  let n := nat_of_ascii a in
  (Nat.eqb n 32 || (Nat.leb 9 n && Nat.leb n 13))%bool.

(** [s.trimStart()] *)
Fixpoint trimStart (s : string) : string :=
  match s with
  | EmptyString => EmptyString
  | String a s' => if is_space a then trimStart s' else s
  end.

(** [s.trimEnd()] *)
Fixpoint trimEnd (s : string) : string :=
  match s with
  | EmptyString => EmptyString
  | String a s' =>
      match trimEnd s' with
      | EmptyString => if is_space a then EmptyString else String a EmptyString
      | t => String a t
      end
  end.

(** [s.trim()] *)
Definition trim (s : string) : string := trimEnd (trimStart s).

(** [s.replace(/\s+/g, '-')]: [in_run] tells that the previous character
    belonged to the run of white space being replaced. *)
Fixpoint replace_spaces (in_run : bool) (s : string) : string :=
  match s with
  | EmptyString => EmptyString
  | String a s' =>
      if is_space a
      then if in_run then replace_spaces true s'
           else String "-" (replace_spaces true s')
      else String a (replace_spaces false s')
  end.

(** [x || d] on strings: the empty string is the only falsy one. *)
Definition or_else (x d : string) : string :=
  match x with
  | EmptyString => d
  | _ => x
  end.

Definition toClassName (name : string) : string :=
  or_else (replace_spaces false (trim name)) "child".

(** One element of a row of the area matrix: an array hole (left behind when
    an assignment past the end of the row extends it), [null], or a name. *)
Inductive Slot : Type :=
| SHole
| SNull
| SName (s : string).

(** [row[c] = v] on a JavaScript array: in range it overwrites, past the end
    it extends the array with holes, at a negative index it sets a property
    that is no element. *)
Fixpoint array_set_nat (l : list Slot) (c : nat) (v : Slot) : list Slot :=
  match l, c with
  | [], O => [v]
  | [], S c' => SHole :: array_set_nat [] c' v
  | _ :: l', O => v :: l'
  | x :: l', S c' => x :: array_set_nat l' c' v
  end.

Definition array_set (l : list Slot) (c : Z) (v : Slot) : list Slot :=
  if c <? 0 then l else array_set_nat l (Z.to_nat c) v.

(** [grid[r][c] = areaName]; [None] is the TypeError raised when [grid[r]]
    is [undefined]. *)
Fixpoint matrix_set_nat (g : list (list Slot)) (r : nat) (c : Z) (v : Slot)
    : option (list (list Slot)) :=
  match g, r with
  | [], _ => None
  | line :: g', O => Some (array_set line c v :: g')
  | line :: g', S r' =>
      option_map (cons line) (matrix_set_nat g' r' c v)
  end.

Definition matrix_set (g : list (list Slot)) (r c : Z) (v : Slot)
    : option (list (list Slot)) :=
  if r <? 0 then None else matrix_set_nat g (Z.to_nat r) c v.

(** The two nested [for] loops painting a bounding box. *)
Definition paintBox (g : list (list Slot)) (minR maxR minC maxC : Z)
    (areaName : string) : option (list (list Slot)) :=
  fold_left
    (fun acc cell =>
       match acc with
       | None => None
       | Some g' => matrix_set g' (row cell) (column cell) (SName areaName)
       end)
    (box minR maxR minC maxC) (Some g).

(** [a ?? b] *)
Definition nullish {A : Type} (a : option A) (b : A) : A :=
  match a with
  | Some x => x
  | None => b
  end.

(** One turn of [for (const ch of children)].  With no cell at all
    [Math.min()] is [Infinity] and [Math.max()] is [-Infinity], so neither
    loop runs. *)
Definition paintChild (g : list (list Slot)) (ch : GridChild)
    : option (list (list Slot)) :=
  let areaName := toClassName (nullish (areaName ch) (name ch)) in
  match areaName with
  | EmptyString => Some g
  | _ =>
      match cells ch with
      | [] => Some g
      | _ =>
          let rows := map row (cells ch) in
          let cols := map column (cells ch) in
          paintBox g (Math_min rows) (Math_max rows)
                   (Math_min cols) (Math_max cols) areaName
      end
  end.

(** [xs.join(sep)] *)
Fixpoint join (sep : string) (xs : list string) : string :=
  match xs with
  | [] => EmptyString
  | [x] => x
  | x :: xs' => (x ++ sep ++ join sep xs')%string
  end.

(** [row.map((c) => c ?? '.')] keeps the holes, and [join] prints a hole
    as the empty string. *)
Definition slot_text (c : Slot) : string :=
  match c with
  | SHole => EmptyString
  | SNull => "."
  | SName s => s
  end.

Definition dquote : string := String "034"%char EmptyString.
Definition newline_indent : string := String "010"%char "  ".

Definition serializeAreas (g : list (list Slot)) : string :=
  join newline_indent
    (map (fun r => (dquote ++ r ++ dquote)%string)
         (map (fun line => join " " (map slot_text line)) g)).

(** [Array(n)] raises a RangeError unless [0 <= n < 2^32]. *)
Definition valid_array_length (n : Z) : bool :=
  ((0 <=? n) && (n <? 2 ^ 32))%bool.

(** The area matrix before serialisation; [None] when the code throws. *)
Definition templateAreaMatrix (rowCount columnCount : Z)
    (children : list GridChild) : option (list (list Slot)) :=
  let rows := Z.to_nat rowCount in
  if (negb (Nat.eqb rows 0) && negb (valid_array_length columnCount))%bool
  then None
  else
    let grid := repeat (repeat SNull (Z.to_nat columnCount)) rows in
    fold_left
      (fun acc ch =>
         match acc with
         | None => None
         | Some g => paintChild g ch
         end)
      children (Some grid).

Definition generateTemplateAreas (rowCount columnCount : Z)
    (children : list GridChild) : option string :=
  option_map serializeAreas (templateAreaMatrix rowCount columnCount children).

(** *** The text generators *)

Definition nl : string := String "010"%char EmptyString.

Definition formatTrackSize (size : TrackSize) : string :=
  match size with
  | TS_fr v => (string_of_Z v ++ "fr")%string
  | TS_px v => (string_of_Z v ++ "px")%string
  | TS_percent v => (string_of_Z v ++ "%")%string
  | TS_auto => "auto"
  | TS_minmax mn mx => ("minmax(" ++ mn ++ ", " ++ mx ++ ")")%string
  end.

Definition placeItems_text (p : PlaceItems) : string :=
  match p with
  | PI_start => "start"
  | PI_end => "end"
  | PI_center => "center"
  | PI_stretch => "stretch"
  | PI_normal => "normal"
  end.

(** [p === 'normal' ? 'normal' : p] *)
Definition formatPlaceItems (p : PlaceItems) : string :=
  match p with
  | PI_normal => "normal"
  | _ => placeItems_text p
  end.

Definition selfAlign_text (a : SelfAlign) : string :=
  match a with
  | SA_start => "start"
  | SA_end => "end"
  | SA_center => "center"
  | SA_stretch => "stretch"
  end.

(** The track list of one axis: the sizes when there is one per track,
    else [repeat(count, 1fr)]. *)
Definition trackTemplate (sizes : list TrackSize) (count : Z) : string :=
  if Z.of_nat (List.length sizes) =? count
  then join " " (map formatTrackSize sizes)
  else ("repeat(" ++ string_of_Z count ++ ", 1fr)")%string.

(** The [gap] declaration(s). *)
Definition gapDeclaration (g : GridDefinition) : string :=
  if ((rowGap g =? columnGap g) && (rowGap g =? gap g))%bool
  then ("  gap: " ++ string_of_Z (gap g) ++ "px;")%string
  else ("  row-gap: " ++ string_of_Z (rowGap g) ++ "px;" ++ nl
        ++ "  column-gap: " ++ string_of_Z (columnGap g) ++ "px;")%string.

(** The [place-items] line, left out for ['stretch']. *)
Definition placeItemsDeclaration (g : GridDefinition) : string :=
  match placeItems g with
  | PI_stretch => EmptyString
  | p => (nl ++ "  place-items: " ++ formatPlaceItems p ++ ";")%string
  end.

Definition generateParentGridCSS (g : GridDefinition) (parentClass : string)
    : string :=
  let cls := toClassName parentClass in
  let rows := trackTemplate (rowSizes g) (rowCount g) in
  let cols := trackTemplate (columnSizes g) (columnCount g) in
  ("." ++ cls ++ " {" ++ nl
   ++ "  display: grid;" ++ nl
   ++ "  grid-template-rows: " ++ rows ++ ";" ++ nl
   ++ "  grid-template-columns: " ++ cols ++ ";" ++ nl
   ++ gapDeclaration g ++ placeItemsDeclaration g ++ nl
   ++ "}")%string.

Record Placement : Type := mkPlacement {
  placement_row : string;
  placement_column : string
}.

(** [end - start === 1 ? `${start}` : `${start} / ${end}`] *)
Definition lineSpan (lineStart lineEnd : Z) : string :=
  if lineEnd - lineStart =? 1 then string_of_Z lineStart
  else (string_of_Z lineStart ++ " / " ++ string_of_Z lineEnd)%string.

Definition getChildPlacement (cells : list GridCell) : Placement :=
  match cells with
  | [] => mkPlacement "auto" "auto"
  | _ =>
      let rows := map row cells in
      let cols := map column cells in
      let rowStart := Math_min rows + 1 in
      let rowEnd := Math_max rows + 2 in
      let colStart := Math_min cols + 1 in
      let colEnd := Math_max cols + 2 in
      mkPlacement (lineSpan rowStart rowEnd) (lineSpan colStart colEnd)
  end.

(** The [self] lines of a child rule, joined: empty when the child sets
    neither alignment. *)
Definition selfDeclarations (ch : GridChild) : string :=
  let self :=
    (match justifySelf ch with
     | Some a => [("justify-self: " ++ selfAlign_text a ++ ";")%string]
     | None => []
     end)
    ++ (match alignSelf ch with
        | Some a => [("align-self: " ++ selfAlign_text a ++ ";")%string]
        | None => []
        end) in
  match self with
  | [] => EmptyString
  | _ => (nl ++ "  " ++ join (nl ++ "  ") self)%string
  end.

Definition generateChildCSS (ch : GridChild) (childClass : option string)
    : string :=
  let cls := toClassName (nullish childClass (name ch)) in
  let p := getChildPlacement (cells ch) in
  ("." ++ cls ++ " {" ++ nl
   ++ "  grid-row: " ++ placement_row p ++ ";" ++ nl
   ++ "  grid-column: " ++ placement_column p ++ ";" ++ selfDeclarations ch
   ++ nl ++ "}")%string.

(** [None] when [generateTemplateAreas] throws. *)
Definition generateParentGridCSSWithAreas (g : GridDefinition)
    (children : list GridChild) (parentClass : string) : option string :=
  match children with
  | [] => Some (generateParentGridCSS g parentClass)
  | _ =>
      let cls := toClassName parentClass in
      let rows := trackTemplate (rowSizes g) (rowCount g) in
      let cols := trackTemplate (columnSizes g) (columnCount g) in
      match generateTemplateAreas (rowCount g) (columnCount g) children with
      | None => None
      | Some areas =>
          Some ("." ++ cls ++ " {" ++ nl
                ++ "  display: grid;" ++ nl
                ++ "  grid-template-areas:" ++ nl
                ++ "  " ++ areas ++ ";" ++ nl
                ++ "  grid-template-rows: " ++ rows ++ ";" ++ nl
                ++ "  grid-template-columns: " ++ cols ++ ";" ++ nl
                ++ gapDeclaration g ++ placeItemsDeclaration g ++ nl
                ++ "}")%string
      end
  end.

Definition generateChildCSSArea (ch : GridChild) (childClass : option string)
    : string :=
  let cls := toClassName (nullish childClass (name ch)) in
  let areaName := toClassName (nullish (areaName ch) (name ch)) in
  match areaName with
  | EmptyString => generateChildCSS ch (Some cls)
  | _ =>
      ("." ++ cls ++ " {" ++ nl
       ++ "  grid-area: " ++ areaName ++ ";" ++ selfDeclarations ch
       ++ nl ++ "}")%string
  end.

Definition generateFullCSS (config : BreakpointConfig) (useAreas : bool)
    (parentClass : string) : option string :=
  let parent :=
    if useAreas
    then generateParentGridCSSWithAreas (grid config) (children config)
                                        parentClass
    else Some (generateParentGridCSS (grid config) parentClass) in
  let childGen := if useAreas then generateChildCSSArea else generateChildCSS in
  match parent with
  | None => None
  | Some parentText =>
      let childBlocks :=
        join (nl ++ nl) (map (fun ch => childGen ch None) (children config)) in
      Some (parentText ++
            match childBlocks with
            | EmptyString => EmptyString
            | _ => nl ++ nl ++ childBlocks
            end)%string
  end.

Definition generateHTML (children : list GridChild) (parentClass : string)
    : string :=
  let cls := toClassName parentClass in
  let items :=
    join nl
      (map (fun ch =>
              ("  <div class=" ++ dquote ++ toClassName (name ch) ++ dquote
               ++ "></div>")%string)
           children) in
  ("<div class=" ++ dquote ++ cls ++ dquote ++ ">" ++ nl ++ items ++ nl
   ++ "</div>")%string.

(** A loop that pushes [f x] for each [x], given up at the first throw. *)
Fixpoint traverse_parts {A B : Type} (f : A -> option B) (l : list A)
    : option (list B) :=
  match l with
  | [] => Some []
  | x :: l' =>
      match f x with
      | None => None
      | Some y =>
          match traverse_parts f l' with
          | None => None
          | Some ys => Some (y :: ys)
          end
      end
  end.

Definition BREAKPOINT_MEDIA (bp : BreakpointId) : string :=
  match bp with
  | desktop => "1200px"
  | tablet => "768px"
  | mobile => "0px"
  end.

(** One turn of the loop over [bpOrder]: the part pushed for [bp]. *)
Definition responsivePart (st : LayoutState) (useAreas : bool)
    (parentClass : string) (bp : BreakpointId) : option string :=
  match generateFullCSS (bp_get (breakpoints st) bp) useAreas parentClass with
  | None => None
  | Some block =>
      match bp with
      | mobile => Some block
      | _ =>
          Some ("@media (min-width: " ++ BREAKPOINT_MEDIA bp ++ ") {" ++ nl
                ++ block ++ nl ++ "}")%string
      end
  end.

Definition generateResponsiveCSS (st : LayoutState) (useAreas : bool)
    (parentClass : string) : option string :=
  match traverse_parts (responsivePart st useAreas parentClass)
                       [mobile; tablet; desktop] with
  | None => None
  | Some parts => Some (join (nl ++ nl) parts)
  end.

(* ================================================================= *)
(** ** JSON values and the host's [JSON] object *)

(** A JSON value.  An object lists its own properties in insertion order,
    each key once. *)
#[warnings="-register-all"]
Inductive json : Type :=
| JNull
| JBool (b : bool)
| JNum (n : Z)
| JStr (s : string)
| JArr (items : list json)
| JObj (members : list (string * json)).

(** [JSON.parse] and [JSON.stringify] belong to the runtime, not to the
    repository; the engine is written against this interface.  [JSON_parse]
    answers [None] where [JSON.parse] raises a SyntaxError. *)
Class JSONHost (text : Type) : Type := {
  JSON_parse : text -> option json;
  JSON_stringify : json -> text
}.

(** The text written by [JSON.stringify] for [j] is read back as [j]. *)
Definition reads_back {text : Type} (H : JSONHost text) (j : json) : Prop :=
  JSON_parse (JSON_stringify j) = Some j.

Fixpoint assoc (k : string) (m : list (string * json)) : option json :=
  match m with
  | [] => None
  | (k', v) :: m' => if String.eqb k k' then Some v else assoc k m'
  end.

(** Reading property [k] (one of the keys of the export format) of a value:
    a TypeError on [null], [undefined] on a missing key or on a value
    that is no object. *)
Inductive Access : Type :=
| Throws
| Undefined
| Value (v : json).

Definition get (v : json) (k : string) : Access :=
  match v with
  | JNull => Throws
  | JObj m => match assoc k m with Some x => Value x | None => Undefined end
  | _ => Undefined
  end.

(** [v?.k] where [v] itself is the result of an access. *)
Definition get_opt (a : Access) (k : string) : Access :=
  match a with
  | Throws => Throws
  | Undefined => Undefined
  | Value JNull => Undefined
  | Value v => get v k
  end.

(** Truthiness of a JSON value. *)
Definition truthy (v : json) : bool :=
  match v with
  | JNull => false
  | JBool b => b
  | JNum n => negb (n =? 0)
  | JStr s => match s with EmptyString => false | _ => true end
  | JArr _ => true
  | JObj _ => true
  end.

Definition truthy_access (a : Access) : bool :=
  match a with
  | Value v => truthy v
  | _ => false
  end.

(** *** What [JSON.stringify] makes of the values of the data model *)

Definition json_of_cell (c : GridCell) : json :=
  JObj [("row", JNum (row c)); ("column", JNum (column c))].

Definition json_of_track (t : TrackSize) : json :=
  match t with
  | TS_fr v => JObj [("type", JStr "fr"); ("value", JNum v)]
  | TS_px v => JObj [("type", JStr "px"); ("value", JNum v)]
  | TS_percent v => JObj [("type", JStr "percent"); ("value", JNum v)]
  | TS_auto => JObj [("type", JStr "auto")]
  | TS_minmax mn mx =>
      JObj [("type", JStr "minmax"); ("min", JStr mn); ("max", JStr mx)]
  end.

Definition string_of_placeItems (p : PlaceItems) : string :=
  match p with
  | PI_start => "start"
  | PI_end => "end"
  | PI_center => "center"
  | PI_stretch => "stretch"
  | PI_normal => "normal"
  end.

Definition string_of_selfAlign (a : SelfAlign) : string :=
  match a with
  | SA_start => "start"
  | SA_end => "end"
  | SA_center => "center"
  | SA_stretch => "stretch"
  end.

Definition string_of_breakpoint (bp : BreakpointId) : string :=
  match bp with
  | desktop => "desktop"
  | tablet => "tablet"
  | mobile => "mobile"
  end.

Definition json_of_grid (g : GridDefinition) : json :=
  JObj [("rowCount", JNum (rowCount g));
        ("columnCount", JNum (columnCount g));
        ("rowSizes", JArr (map json_of_track (rowSizes g)));
        ("columnSizes", JArr (map json_of_track (columnSizes g)));
        ("gap", JNum (gap g));
        ("rowGap", JNum (rowGap g));
        ("columnGap", JNum (columnGap g));
        ("placeItems", JStr (string_of_placeItems (placeItems g)))].

(** A property holding [undefined] is left out of the text. *)
Definition optional_member (k : string) (v : option json)
    : list (string * json) :=
  match v with
  | Some x => [(k, x)]
  | None => []
  end.

Definition json_of_child (ch : GridChild) : json :=
  JObj ([("id", JStr (id ch));
         ("name", JStr (name ch));
         ("cells", JArr (map json_of_cell (cells ch)));
         ("locked", JBool (locked ch))]
        ++ optional_member "areaName" (option_map JStr (areaName ch))
        ++ optional_member "justifySelf"
             (option_map (fun a => JStr (string_of_selfAlign a))
                         (justifySelf ch))
        ++ optional_member "alignSelf"
             (option_map (fun a => JStr (string_of_selfAlign a))
                         (alignSelf ch))).

Definition json_of_config (c : BreakpointConfig) : json :=
  JObj [("grid", json_of_grid (grid c));
        ("children", JArr (map json_of_child (children c)))].

Definition json_of_layout (s : LayoutState) : json :=
  JObj [("activeBreakpoint", JStr (string_of_breakpoint (activeBreakpoint s)));
        ("breakpoints",
         JObj [("desktop", json_of_config (bp_desktop (breakpoints s)));
               ("tablet", json_of_config (bp_tablet (breakpoints s)));
               ("mobile", json_of_config (bp_mobile (breakpoints s)))])].

(** *** Reading a JSON value at the types of the data model

    TypeScript's [as LayoutExport] checks nothing at run time.  These
    readers tell whether a parsed value does have the shape of the type it
    is cast to; keys the type does not mention are ignored. *)

Definition field (k : string) (v : json) : option json :=
  match v with
  | JObj m => assoc k m
  | _ => None
  end.

Definition as_num (v : json) : option Z :=
  match v with JNum n => Some n | _ => None end.

Definition as_str (v : json) : option string :=
  match v with JStr s => Some s | _ => None end.

Definition as_bool (v : json) : option bool :=
  match v with JBool b => Some b | _ => None end.

Definition as_arr (v : json) : option (list json) :=
  match v with JArr l => Some l | _ => None end.

Definition bind {A B : Type} (a : option A) (f : A -> option B) : option B :=
  match a with
  | Some x => f x
  | None => None
  end.

Notation "x <- a ;; b" := (bind a (fun x => b))
  (at level 61, a at next level, right associativity).

Fixpoint traverse {A B : Type} (f : A -> option B) (l : list A)
    : option (list B) :=
  match l with
  | [] => Some []
  | x :: l' =>
      y <- f x ;;
      ys <- traverse f l' ;;
      Some (y :: ys)
  end.

Definition num_field (k : string) (v : json) : option Z :=
  x <- field k v ;; as_num x.

Definition str_field (k : string) (v : json) : option string :=
  x <- field k v ;; as_str x.

Definition list_field {A : Type} (f : json -> option A) (k : string)
    (v : json) : option (list A) :=
  x <- field k v ;; l <- as_arr x ;; traverse f l.

(** A property that may be absent: [Some None] when it is. *)
Definition opt_field {A : Type} (f : json -> option A) (k : string)
    (v : json) : option (option A) :=
  match field k v with
  | None => Some None
  | Some x => y <- f x ;; Some (Some y)
  end.

Definition cell_of_json (v : json) : option GridCell :=
  r <- num_field "row" v ;;
  c <- num_field "column" v ;;
  Some (mkCell r c).

Definition track_of_json (v : json) : option TrackSize :=
  t <- str_field "type" v ;;
  if String.eqb t "fr" then n <- num_field "value" v ;; Some (TS_fr n)
  else if String.eqb t "px" then n <- num_field "value" v ;; Some (TS_px n)
  else if String.eqb t "percent"
  then n <- num_field "value" v ;; Some (TS_percent n)
  else if String.eqb t "auto" then Some TS_auto
  else if String.eqb t "minmax"
  then mn <- str_field "min" v ;; mx <- str_field "max" v ;;
       Some (TS_minmax mn mx)
  else None.

Definition placeItems_of_string (s : string) : option PlaceItems :=
  if String.eqb s "start" then Some PI_start
  else if String.eqb s "end" then Some PI_end
  else if String.eqb s "center" then Some PI_center
  else if String.eqb s "stretch" then Some PI_stretch
  else if String.eqb s "normal" then Some PI_normal
  else None.

Definition selfAlign_of_string (s : string) : option SelfAlign :=
  if String.eqb s "start" then Some SA_start
  else if String.eqb s "end" then Some SA_end
  else if String.eqb s "center" then Some SA_center
  else if String.eqb s "stretch" then Some SA_stretch
  else None.

Definition breakpoint_of_string (s : string) : option BreakpointId :=
  if String.eqb s "desktop" then Some desktop
  else if String.eqb s "tablet" then Some tablet
  else if String.eqb s "mobile" then Some mobile
  else None.

Definition selfAlign_of_json (v : json) : option SelfAlign :=
  s <- as_str v ;; selfAlign_of_string s.

Definition grid_of_json (v : json) : option GridDefinition :=
  rc <- num_field "rowCount" v ;;
  cc <- num_field "columnCount" v ;;
  rs <- list_field track_of_json "rowSizes" v ;;
  cs <- list_field track_of_json "columnSizes" v ;;
  g <- num_field "gap" v ;;
  rg <- num_field "rowGap" v ;;
  cg <- num_field "columnGap" v ;;
  ps <- str_field "placeItems" v ;;
  p <- placeItems_of_string ps ;;
  Some (mkGrid rc cc rs cs g rg cg p).

Definition child_of_json (v : json) : option GridChild :=
  i <- str_field "id" v ;;
  n <- str_field "name" v ;;
  cs <- list_field cell_of_json "cells" v ;;
  lk <- (x <- field "locked" v ;; as_bool x) ;;
  an <- opt_field as_str "areaName" v ;;
  js <- opt_field selfAlign_of_json "justifySelf" v ;;
  al <- opt_field selfAlign_of_json "alignSelf" v ;;
  Some (mkChild i n cs lk an js al).

Definition config_of_json (v : json) : option BreakpointConfig :=
  gv <- field "grid" v ;;
  g <- grid_of_json gv ;;
  chs <- list_field child_of_json "children" v ;;
  Some (mkConfig g chs).

Definition layout_of_json (v : json) : option LayoutState :=
  a <- str_field "activeBreakpoint" v ;;
  bp <- breakpoint_of_string a ;;
  bs <- field "breakpoints" v ;;
  d <- (x <- field "desktop" bs ;; config_of_json x) ;;
  t <- (x <- field "tablet" bs ;; config_of_json x) ;;
  m <- (x <- field "mobile" bs ;; config_of_json x) ;;
  Some (mkLayout bp (mkBreakpoints d t m)).

(* ================================================================= *)
(** ** [src/hooks/useGridState.ts] *)

Definition MAX_HISTORY : nat := 50.

(** [JSON.parse(JSON.stringify(state))]: the value read back from the JSON
    value of the state.  Lemma [deepCloneState_id] shows that a state is
    always read back, and as itself. *)
Definition deepCloneState (state : LayoutState) : LayoutState :=
  match layout_of_json (json_of_layout state) with
  | Some copy => copy
  | None => state
  end.

(** [`child${n}`] *)
Definition childName (n : Z) : string := ("child" ++ string_of_Z n)%string.

(** The [while (used.has(`child${n}`)) n++] of [nextChildName]; [fuel]
    counts the tests of the loop condition still allowed. *)
Fixpoint nextChildName_loop (fuel : nat) (used : KeySet) (n : Z) : string :=
  match fuel with
  | O => childName n
  | S fuel' =>
      if set_has used (childName n)
      then nextChildName_loop fuel' used (n + 1)
      else childName n
  end.

(** Each passed test finds another element of [used], so the loop stops
    within [S (length used)] tests (lemma [nextChildName_unused]). *)
Definition nextChildName (children : list GridChild) : string :=
  let used := Set_of (map name children) in
  nextChildName_loop (S (List.length used)) used 1.

(** The seven [useState] cells of the hook. *)
Record Engine : Type := mkEngine {
  state : LayoutState;
  history : list LayoutState;
  historyForward : list LayoutState;
  selectedChildId : option string;
  pendingSelection : list GridCell;
  isSelecting : bool;
  useNamedAreas : bool
}.

Definition setState (f : LayoutState -> LayoutState) (e : Engine) : Engine :=
  mkEngine (f (state e)) (history e) (historyForward e) (selectedChildId e)
           (pendingSelection e) (isSelecting e) (useNamedAreas e).

Definition setHistory (f : list LayoutState -> list LayoutState)
    (e : Engine) : Engine :=
  mkEngine (state e) (f (history e)) (historyForward e) (selectedChildId e)
           (pendingSelection e) (isSelecting e) (useNamedAreas e).

Definition setHistoryForward (f : list LayoutState -> list LayoutState)
    (e : Engine) : Engine :=
  mkEngine (state e) (history e) (f (historyForward e)) (selectedChildId e)
           (pendingSelection e) (isSelecting e) (useNamedAreas e).

Definition setSelectedChildId (v : option string) (e : Engine) : Engine :=
  mkEngine (state e) (history e) (historyForward e) v
           (pendingSelection e) (isSelecting e) (useNamedAreas e).

Definition setPendingSelection (f : list GridCell -> list GridCell)
    (e : Engine) : Engine :=
  mkEngine (state e) (history e) (historyForward e) (selectedChildId e)
           (f (pendingSelection e)) (isSelecting e) (useNamedAreas e).

Definition setIsSelecting (v : bool) (e : Engine) : Engine :=
  mkEngine (state e) (history e) (historyForward e) (selectedChildId e)
           (pendingSelection e) v (useNamedAreas e).

Definition setUseNamedAreas (v : bool) (e : Engine) : Engine :=
  mkEngine (state e) (history e) (historyForward e) (selectedChildId e)
           (pendingSelection e) (isSelecting e) v.

(** [useGridState(initialState?)] *)
Definition useGridState (initialState : option LayoutState) : Engine :=
  mkEngine (nullish initialState defaultLayoutState) [] [] None [] false false.

(** [xs.slice(-n)]: the last [n] elements. *)
Definition slice_last {A : Type} (n : nat) (xs : list A) : list A :=
  skipn (List.length xs - n) xs.

Definition pushHistory (newState : LayoutState) (e : Engine) : Engine :=
  setHistoryForward (fun _ => [])
    (setHistory
       (fun h => slice_last MAX_HISTORY (h ++ [deepCloneState newState])) e).

Definition currentConfig (e : Engine) : BreakpointConfig :=
  bp_get (breakpoints (state e)) (activeBreakpoint (state e)).

Definition setActiveBreakpoint (bp : BreakpointId) (e : Engine) : Engine :=
  setPendingSelection (fun _ => [])
    (setSelectedChildId None
       (setState (fun s => mkLayout bp (breakpoints s)) e)).

(** [{ ...s, breakpoints: { ...s.breakpoints, [bp]: cfg } }] with
    [bp = s.activeBreakpoint]. *)
Definition with_active_config (s : LayoutState) (cfg : BreakpointConfig)
    : LayoutState :=
  mkLayout (activeBreakpoint s)
           (bp_set (breakpoints s) (activeBreakpoint s) cfg).

Definition active_config (s : LayoutState) : BreakpointConfig :=
  bp_get (breakpoints s) (activeBreakpoint s).

Definition setGridDefinition (updater : GridDefinition -> GridDefinition)
    (e : Engine) : Engine :=
  setState
    (fun s =>
       let config := active_config s in
       let nextGrid := updater (grid config) in
       with_active_config s (mkConfig nextGrid (children config)))
    e.

(** [Math.max(1, Math.min(20, count + delta))] *)
Definition clampCount (count delta : Z) : Z :=
  Z.max 1 (Z.min 20 (count + delta)).

(** The size list computed by [setRows] and [setColumns]:
    [sizes.slice(0, newCount)], or the list extended by
    [newCount - count] tracks [{ type: 'fr', value: 1 }]. *)
Definition resizeSizes (sizes : list TrackSize) (count newCount : Z)
    : list TrackSize :=
  if newCount >? count
  then sizes ++ repeat (TS_fr 1) (Z.to_nat (newCount - count))
  else firstn (Z.to_nat newCount) sizes.

Definition setRows_state (delta : Z) (s : LayoutState) : LayoutState :=
  let config := active_config s in
  let g := grid config in
  let newCount := clampCount (rowCount g) delta in
  let rowSizes' := resizeSizes (rowSizes g) (rowCount g) newCount in
  with_active_config s
    (mkConfig
       (mkGrid newCount (columnCount g) rowSizes' (columnSizes g)
               (gap g) (rowGap g) (columnGap g) (placeItems g))
       (children config)).

Definition setRows (delta : Z) (e : Engine) : Engine :=
  setHistoryForward (fun _ => [])
    (setState (setRows_state delta) (pushHistory (state e) e)).

Definition setColumns_state (delta : Z) (s : LayoutState) : LayoutState :=
  let config := active_config s in
  let g := grid config in
  let newCount := clampCount (columnCount g) delta in
  let columnSizes' := resizeSizes (columnSizes g) (columnCount g) newCount in
  with_active_config s
    (mkConfig
       (mkGrid (rowCount g) newCount (rowSizes g) columnSizes'
               (gap g) (rowGap g) (columnGap g) (placeItems g))
       (children config)).

Definition setColumns (delta : Z) (e : Engine) : Engine :=
  setHistoryForward (fun _ => [])
    (setState (setColumns_state delta) (pushHistory (state e) e)).

Definition startSelection (cell : GridCell) (e : Engine) : Engine :=
  setPendingSelection (fun _ => [cell]) (setIsSelecting true e).

Definition addToSelection (cell : GridCell) (e : Engine) : Engine :=
  setPendingSelection
    (fun prev =>
       let key := cellKey cell in
       if existsb (fun c => String.eqb (cellKey c) key) prev
       then prev else prev ++ [cell])
    e.

(** The set filled by the two nested [forEach] of [endSelection]. *)
Definition lockedCells (config : BreakpointConfig) : KeySet :=
  fold_left
    (fun acc ch =>
       if locked ch
       then fold_left (fun acc' c => set_add acc' (cellKey c)) (cells ch) acc
       else acc)
    (children config) [].

(** The updater handed to [setState] by [endSelection], after its call of
    [pushHistory]; [newId] is the value of [generateId()], [named] the
    flag [useNamedAreas]. *)
Definition endSelection_state (expanded : list GridCell) (newId : string)
    (named : bool) (s : LayoutState) : LayoutState :=
  let config := active_config s in
  let lockedSet := lockedCells config in
  let overlap := existsb (fun c => set_has lockedSet (cellKey c)) expanded in
  if overlap then s
  else
    let name := nextChildName (children config) in
    let child :=
      mkChild newId name expanded false
              (if named then Some name else None) None None in
    with_active_config s
      (mkConfig (grid config) (children config ++ [child])).

Definition endSelection (newId : string) (e : Engine) : Engine :=
  let e1 := setIsSelecting false e in
  match pendingSelection e1 with
  | [] => setPendingSelection (fun _ => []) e1
  | prev =>
      let expanded := expandToBoundingBox prev in
      let e2 := pushHistory (state e1) e1 in
      let e3 :=
        setState (endSelection_state expanded newId (useNamedAreas e)) e2 in
      setPendingSelection (fun _ => []) (setHistoryForward (fun _ => []) e3)
  end.

Definition clearSelection (e : Engine) : Engine :=
  setPendingSelection (fun _ => []) (setIsSelecting false e).

Definition option_string_eqb (a : option string) (b : string) : bool :=
  match a with
  | Some x => String.eqb x b
  | None => false
  end.

Definition deleteChild_state (i : string) (s : LayoutState) : LayoutState :=
  let config := active_config s in
  let children' :=
    filter (fun c => negb (String.eqb (id c) i)) (children config) in
  with_active_config s (mkConfig (grid config) children').

Definition deleteChild (i : string) (e : Engine) : Engine :=
  let e1 := setState (deleteChild_state i) (pushHistory (state e) e) in
  let e2 := setHistoryForward (fun _ => []) e1 in
  if option_string_eqb (selectedChildId e) i
  then setSelectedChildId None e2 else e2.

Definition updateChild (i : string) (updater : GridChild -> GridChild)
    (e : Engine) : Engine :=
  setState
    (fun s =>
       let config := active_config s in
       let children' :=
         map (fun c => if String.eqb (id c) i then updater c else c)
             (children config) in
       with_active_config s (mkConfig (grid config) children'))
    e.

Definition setChildLock (i : string) (lk : bool) (e : Engine) : Engine :=
  updateChild i
    (fun c => mkChild (id c) (name c) (cells c) lk (areaName c)
                      (justifySelf c) (alignSelf c))
    e.

Definition setChildName (i : string) (nm : string) (e : Engine) : Engine :=
  updateChild i
    (fun c =>
       mkChild (id c) (or_else (trim nm) (name c)) (cells c) (locked c)
               (if useNamedAreas e then Some (or_else (trim nm) (name c))
                else None)
               (justifySelf c) (alignSelf c))
    e.

Definition undo (e : Engine) : Engine :=
  match List.rev (history e) with
  | [] => e
  | prev :: _ =>
      setSelectedChildId None
        (setState (fun _ => deepCloneState prev)
           (setHistoryForward (fun f => deepCloneState (state e) :: f)
              (setHistory (fun h => removelast h) e)))
  end.

Definition redo (e : Engine) : Engine :=
  match historyForward e with
  | [] => e
  | next :: _ =>
      setState (fun _ => deepCloneState next)
        (setHistory (fun h => h ++ [deepCloneState (state e)])
           (setHistoryForward (fun f => tl f) e))
  end.

Definition canUndo (e : Engine) : bool :=
  negb (Nat.eqb (List.length (history e)) 0).

Definition canRedo (e : Engine) : bool :=
  negb (Nat.eqb (List.length (historyForward e)) 0).

(** The object serialised by [exportLayout]; [exportedAt] is the value of
    [new Date().toISOString()]. *)
Definition exportData (s : LayoutState) (exportedAt : string) : json :=
  JObj [("version", JNum 1);
        ("layout", json_of_layout (deepCloneState s));
        ("exportedAt", JStr exportedAt)].

Definition exportLayout {text : Type} {H : JSONHost text}
    (exportedAt : string) (e : Engine) : text :=
  JSON_stringify (exportData (state e) exportedAt).

(** What a call of [importLayout] does.  The parsed layout is stored without
    any check of its shape beyond the three tests below, so the value stored
    may lie outside [LayoutState]: [AcceptedUntyped]. *)
Inductive ImportResult : Type :=
| Accepted (e' : Engine)
| AcceptedUntyped (layout : json)
| Refused (e' : Engine).

(** The boolean returned by [importLayout]. *)
Definition returned (r : ImportResult) : bool :=
  match r with
  | Accepted _ => true
  | AcceptedUntyped _ => true
  | Refused _ => false
  end.

(** [['desktop', 'tablet', 'mobile'].includes(bp)] *)
Definition known_breakpoint (bp : Access) : bool :=
  match bp with
  | Value (JStr s) =>
      (String.eqb s "desktop" || String.eqb s "tablet"
       || String.eqb s "mobile")%bool
  | _ => false
  end.

(** [v !== 1] *)
Definition is_not_one (a : Access) : bool :=
  match a with
  | Value (JNum n) => negb (n =? 1)
  | _ => true
  end.

(** The body of the [try] block once [JSON.parse] has answered [data]. *)
Definition importData (data : json) (e : Engine) : ImportResult :=
  match get data "version" with
  | Throws => Refused e
  | version =>
      let layout := get data "layout" in
      if (is_not_one version
          || negb (truthy_access (get_opt layout "breakpoints")))%bool
      then Refused e
      else
        match layout with
        | Value l =>
            let bp := get l "activeBreakpoint" in
            if negb (known_breakpoint bp) then Refused e
            else
              match layout_of_json l with
              | Some s =>
                  Accepted
                    (setSelectedChildId None
                       (setHistoryForward (fun _ => [])
                          (setHistory (fun _ => [])
                             (setState (fun _ => deepCloneState s) e))))
              | None => AcceptedUntyped l
              end
        | _ => Refused e
        end
  end.

Definition importLayout {text : Type} {H : JSONHost text}
    (json : text) (e : Engine) : ImportResult :=
  match JSON_parse json with
  | None => Refused e
  | Some data => importData data e
  end.

(* ================================================================= *)
(** ** Predicates used in the statements *)

(** No character of [s] is [sep]. *)
Fixpoint lacks (sep : ascii) (s : string) : bool :=
  match s with
  | EmptyString => true
  | String a s' => (negb (Ascii.eqb a sep) && lacks sep s')%bool
  end.

(** What the resize contract says of a count and its size list, before
    ([count], [sizes]) and after ([count'], [sizes']) a resize by [delta]:
    the new count is [count + delta] clamped to [[1,20]]; a grown list has
    new tracks [fr(1)] appended, otherwise the list is cut to the new
    count. *)
Definition clamped_resize (count : Z) (sizes : list TrackSize) (delta : Z)
    (count' : Z) (sizes' : list TrackSize) : Prop :=
  1 <= count' <= 20 /\
  (count + delta < 1 -> count' = 1) /\
  (1 <= count + delta <= 20 -> count' = count + delta) /\
  (20 < count + delta -> count' = 20) /\
  (count < count' ->
   sizes' = sizes ++ repeat (TS_fr 1) (Z.to_nat (count' - count))) /\
  (count' <= count -> sizes' = firstn (Z.to_nat count') sizes).

(** The operations of the hook that call [pushHistory]. *)
Inductive Mutation : Type :=
| MSetRows (delta : Z)
| MSetColumns (delta : Z)
| MDeleteChild (i : string)
| MEndSelection (newId : string).

Definition mutate (m : Mutation) (e : Engine) : Engine :=
  match m with
  | MSetRows delta => setRows delta e
  | MSetColumns delta => setColumns delta e
  | MDeleteChild i => deleteChild i e
  | MEndSelection newId => endSelection newId e
  end.

(** [endSelection] reaches its [pushHistory] only with a pending
    selection; the other three always do. *)
Definition pushes (m : Mutation) (e : Engine) : Prop :=
  match m with
  | MEndSelection _ => pendingSelection e <> []
  | _ => True
  end.

(** Every operation returned by the hook, as a call on the engine. *)
Inductive Op {text : Type} : Type :=
| OpSetSelectedChildId (v : option string)
| OpSetUseNamedAreas (v : bool)
| OpSetActiveBreakpoint (bp : BreakpointId)
| OpSetGridDefinition (updater : GridDefinition -> GridDefinition)
| OpSetRows (delta : Z)
| OpSetColumns (delta : Z)
| OpStartSelection (cell : GridCell)
| OpAddToSelection (cell : GridCell)
| OpEndSelection (newId : string)
| OpClearSelection
| OpDeleteChild (i : string)
| OpUpdateChild (i : string) (updater : GridChild -> GridChild)
| OpSetChildLock (i : string) (lk : bool)
| OpSetChildName (i : string) (nm : string)
| OpUndo
| OpRedo
| OpExportLayout (exportedAt : string)
| OpImportLayout (json : text).

Arguments Op : clear implicits.

(** The engine after a call; [None] when an import has stored a value
    that is no [LayoutState]. *)
Definition run {text : Type} {H : JSONHost text} (op : Op text) (e : Engine)
    : option Engine :=
  match op with
  | OpSetSelectedChildId v => Some (setSelectedChildId v e)
  | OpSetUseNamedAreas v => Some (setUseNamedAreas v e)
  | OpSetActiveBreakpoint bp => Some (setActiveBreakpoint bp e)
  | OpSetGridDefinition updater => Some (setGridDefinition updater e)
  | OpSetRows delta => Some (setRows delta e)
  | OpSetColumns delta => Some (setColumns delta e)
  | OpStartSelection cell => Some (startSelection cell e)
  | OpAddToSelection cell => Some (addToSelection cell e)
  | OpEndSelection newId => Some (endSelection newId e)
  | OpClearSelection => Some (clearSelection e)
  | OpDeleteChild i => Some (deleteChild i e)
  | OpUpdateChild i updater => Some (updateChild i updater e)
  | OpSetChildLock i lk => Some (setChildLock i lk e)
  | OpSetChildName i nm => Some (setChildName i nm e)
  | OpUndo => Some (undo e)
  | OpRedo => Some (redo e)
  | OpExportLayout _ => Some e
  | OpImportLayout json =>
      match importLayout json e with
      | Accepted e' => Some e'
      | AcceptedUntyped _ => None
      | Refused e' => Some e'
      end
  end.

(** The engines a client of the hook can bring about. *)
Inductive reachable {text : Type} {H : JSONHost text} : Engine -> Prop :=
| reachable_init (initialState : option LayoutState) :
    reachable (useGridState initialState)
| reachable_step (op : Op text) (e e' : Engine) :
    reachable e -> run op e = Some e' -> reachable e'.

(** A host in which a text is the JSON value it denotes, and [None] a text
    that is not JSON. *)
Definition denotation_host : JSONHost (option json) :=
  {| JSON_parse := fun t => t; JSON_stringify := fun j => Some j |}.

(** The tests of the import contract, on a parsed text. *)

(** Its [version] is the number 1. *)
Definition version_is_one (data : json) : bool :=
  match field "version" data with
  | Some (JNum 1) => true
  | _ => false
  end.

Definition breakpoints_of (data : json) : option json :=
  l <- field "layout" data ;; field "breakpoints" l.

(** Its layout has a [breakpoints] map. *)
Definition has_breakpoints_map (data : json) : bool :=
  match breakpoints_of data with
  | Some (JObj _) => true
  | _ => false
  end.

(** Its layout has a [breakpoints] property that is none of [null],
    [false], [0] and the empty string. *)
Definition has_truthy_breakpoints (data : json) : bool :=
  match breakpoints_of data with
  | Some v => truthy v
  | None => false
  end.

(** Its [activeBreakpoint] is one of the three known ids. *)
Definition active_is_known (data : json) : bool :=
  match l <- field "layout" data ;; field "activeBreakpoint" l with
  | Some (JStr s) =>
      match breakpoint_of_string s with
      | Some _ => true
      | None => false
      end
  | _ => false
  end.

(** An export-shaped text whose [breakpoints] is a number. *)
Definition number_breakpoints_doc : json :=
  JObj [("version", JNum 1);
        ("layout", JObj [("activeBreakpoint", JStr "desktop");
                         ("breakpoints", JNum 5)])].

(** A child without area name whose name is empty, and one whose area name
    is white space only; both on cell (0,0). *)
Definition unnamed_child : GridChild :=
  mkChild "id_1" "" [mkCell 0 0] false None None None.

Definition blank_area_child : GridChild :=
  mkChild "id_2" "child1" [mkCell 0 0] false (Some "  ") None None.

(** The two stacks together hold at most [MAX_HISTORY] snapshots: what
    [undo] takes from one it puts on the other, and [redo] back. *)
Definition stacks_bounded (e : Engine) : Prop :=
  (List.length (history e) + List.length (historyForward e)
   <= MAX_HISTORY)%nat.

(** An engine whose desktop layout holds one locked child on cell (0,0),
    with the pointer selection [(0,0)] pending. *)
Definition locked_example : Engine :=
  startSelection (mkCell 0 0)
    (setChildLock "id_1" true
       (endSelection "id_1"
          (startSelection (mkCell 0 0) (useGridState None)))).

(** The pointer drags of the two selection scenarios, on a fresh engine. *)
Definition square_drag : Engine :=
  addToSelection (mkCell 1 1)
    (addToSelection (mkCell 1 0)
       (addToSelection (mkCell 0 1)
          (startSelection (mkCell 0 0) (useGridState None)))).

Definition gap_drag : Engine :=
  addToSelection (mkCell 0 2)
    (startSelection (mkCell 0 0) (useGridState None)).

(** No character of [s] is white space. *)
Fixpoint spaceless (s : string) : bool :=
  match s with
  | EmptyString => true
  | String a s' => (negb (is_space a) && spaceless s')%bool
  end.

(** The area name a child is painted with. *)
Definition areaOf (ch : GridChild) : string :=
  toClassName (nullish (areaName ch) (name ch)).






(** The size lists of a grid have one size per track. *)
Definition sizes_consistent (g : GridDefinition) : Prop :=
  Z.of_nat (List.length (rowSizes g)) = rowCount g
  /\ Z.of_nat (List.length (columnSizes g)) = columnCount g.

(** The operations that edit the active breakpoint only: all but the
    switch of breakpoint, [undo], [redo] and [importLayout]. *)
Definition is_edit {text : Type} (op : Op text) : Prop :=
  match op with
  | OpSetActiveBreakpoint _ => False
  | OpUndo => False
  | OpRedo => False
  | OpImportLayout _ => False
  | _ => True
  end.



(** A state function that rewrites the active configuration only. *)
Definition local_update (f : LayoutState -> LayoutState) : Prop :=
  forall s,
    activeBreakpoint (f s) = activeBreakpoint s
    /\ forall bp, bp <> activeBreakpoint s ->
         bp_get (breakpoints (f s)) bp = bp_get (breakpoints s) bp.





(* ================================================================= *)
(** * Properties *)

(** ** Decimal notation and cell keys *)

Lemma Number_string_of_Z (n : Z) : Number (string_of_Z n) = Some n.
Proof.
  unfold Number, string_of_Z.
  rewrite DecimalString.NilZero.isi.
  - simpl. now rewrite DecimalZ.of_to.
  - destruct n; simpl; try discriminate.
    intros [= H]. now apply DecimalPos.Unsigned.to_uint_nonnil in H.
  - destruct n; simpl; try discriminate.
    intros [= H]. now apply DecimalPos.Unsigned.to_uint_nonnil in H.
Qed.

Lemma string_of_Z_inj (n m : Z) : string_of_Z n = string_of_Z m -> n = m.
Proof.
  intros H.
  assert (E : Number (string_of_Z n) = Number (string_of_Z m)) by now rewrite H.
  rewrite !Number_string_of_Z in E. congruence.
Qed.

Lemma lacks_comma_uint (d : Decimal.uint) :
  lacks "," (DecimalString.NilEmpty.string_of_uint d) = true.
Proof. induction d; simpl; auto. Qed.

Lemma lacks_comma_string_of_Z (n : Z) : lacks "," (string_of_Z n) = true.
Proof.
  unfold string_of_Z.
  destruct (Z.to_int n) as [d | d]; simpl;
    destruct d; simpl; auto using lacks_comma_uint.
Qed.

Lemma split_lacks (sep : ascii) (s : string) :
  lacks sep s = true -> split sep s = [s].
Proof.
  induction s as [| a s IH]; simpl; [reflexivity |].
  intros H. apply andb_prop in H as [Ha Hs].
  apply negb_true_iff in Ha. rewrite Ha, (IH Hs). reflexivity.
Qed.

Lemma split_append (sep : ascii) (s t : string) :
  lacks sep s = true ->
  split sep (s ++ String sep t)%string = s :: split sep t.
Proof.
  induction s as [| a s IH]; simpl.
  - intros _. now rewrite Ascii.eqb_refl.
  - intros H. apply andb_prop in H as [Ha Hs].
    apply negb_true_iff in Ha. rewrite Ha, (IH Hs). reflexivity.
Qed.

Lemma parseKey_cellKey (c : GridCell) :
  parseKey (cellKey c) = Some (row c, column c).
Proof.
  unfold parseKey, cellKey.
  change ("," ++ string_of_Z (column c))%string
    with (String "," (string_of_Z (column c))).
  rewrite split_append by apply lacks_comma_string_of_Z.
  rewrite split_lacks by apply lacks_comma_string_of_Z.
  simpl. now rewrite !Number_string_of_Z.
Qed.

Lemma cellKey_inj (a b : GridCell) : cellKey a = cellKey b -> a = b.
Proof.
  intros H.
  assert (E : parseKey (cellKey a) = parseKey (cellKey b)) by now rewrite H.
  rewrite !parseKey_cellKey in E.
  destruct a, b; simpl in E. congruence.
Qed.

Lemma cellKey_mkCell (r c : Z) :
  (string_of_Z r ++ "," ++ string_of_Z c)%string = cellKey (mkCell r c).
Proof. reflexivity. Qed.

(** ** Insertion-ordered sets *)

Lemma set_has_In (s : KeySet) (k : string) : set_has s k = true <-> In k s.
Proof.
  unfold set_has. rewrite existsb_exists. split.
  - intros [x [Hin Heq]]. apply String.eqb_eq in Heq. now subst.
  - intros Hin. exists k. split; [assumption | apply String.eqb_refl].
Qed.

Lemma set_has_false (s : KeySet) (k : string) :
  set_has s k = false <-> ~ In k s.
Proof.
  rewrite <- set_has_In. destruct (set_has s k); split; congruence.
Qed.

Lemma set_add_In (s : KeySet) (k x : string) :
  In x (set_add s k) <-> In x s \/ x = k.
Proof.
  unfold set_add. destruct (set_has s k) eqn:E.
  - apply set_has_In in E. split; [auto |]. intros [H | ->]; assumption.
  - rewrite in_app_iff. simpl. intuition.
Qed.

Lemma set_add_NoDup (s : KeySet) (k : string) :
  NoDup s -> NoDup (set_add s k).
Proof.
  intros Hs. unfold set_add. destruct (set_has s k) eqn:E; [assumption |].
  apply set_has_false in E.
  apply NoDup_app; [assumption | repeat constructor; intros [] | ].
  simpl. intros x Hx [<- | []]. contradiction.
Qed.

Lemma fold_set_add_In (keys : list string) (s : KeySet) (x : string) :
  In x (fold_left set_add keys s) <-> In x s \/ In x keys.
Proof.
  revert s. induction keys as [| k keys IH]; intros s; simpl.
  - intuition.
  - rewrite IH, set_add_In. intuition.
Qed.

Lemma fold_set_add_NoDup (keys : list string) (s : KeySet) :
  NoDup s -> NoDup (fold_left set_add keys s).
Proof.
  revert s. induction keys as [| k keys IH]; intros s Hs; simpl;
    auto using set_add_NoDup.
Qed.

Lemma Set_of_In (keys : list string) (x : string) :
  In x (Set_of keys) <-> In x keys.
Proof. unfold Set_of. rewrite fold_set_add_In. simpl. intuition. Qed.

Lemma Set_of_NoDup (keys : list string) : NoDup (Set_of keys).
Proof. apply fold_set_add_NoDup. constructor. Qed.

(** ** Ranges, extrema and boxes *)

Lemma zrange_In (lo hi x : Z) : In x (zrange lo hi) <-> lo <= x <= hi.
Proof.
  unfold zrange. rewrite in_map_iff. split.
  - intros [i [<- Hi]]. apply in_seq in Hi. lia.
  - intros H. exists (Z.to_nat (x - lo)). split; [lia |].
    apply in_seq. lia.
Qed.

Lemma zrange_length (lo hi : Z) :
  List.length (zrange lo hi) = Z.to_nat (hi - lo + 1).
Proof. unfold zrange. now rewrite length_map, length_seq. Qed.

Lemma zrange_NoDup (lo hi : Z) : NoDup (zrange lo hi).
Proof.
  unfold zrange. apply Finite.Injective_map_NoDup; [| apply seq_NoDup].
  intros i j H. lia.
Qed.

Lemma fold_min_spec (xs : list Z) (x : Z) :
  In (fold_left Z.min xs x) (x :: xs) /\
  forall y, In y (x :: xs) -> fold_left Z.min xs x <= y.
Proof.
  revert x. induction xs as [| a xs IH]; intros x; simpl.
  - split; [now left | intros y [<- | []]; lia].
  - destruct (IH (Z.min x a)) as [Hin Hle]. split.
    + destruct Hin as [Hin | Hin]; [| now right; right].
      rewrite <- Hin. destruct (Z.min_spec x a) as [[_ ->] | [_ ->]]; auto.
    + intros y [<- | [<- | Hy]].
      * specialize (Hle (Z.min x a) (or_introl eq_refl)). lia.
      * specialize (Hle (Z.min x a) (or_introl eq_refl)). lia.
      * apply Hle. now right.
Qed.

Lemma fold_max_spec (xs : list Z) (x : Z) :
  In (fold_left Z.max xs x) (x :: xs) /\
  forall y, In y (x :: xs) -> y <= fold_left Z.max xs x.
Proof.
  revert x. induction xs as [| a xs IH]; intros x; simpl.
  - split; [now left | intros y [<- | []]; lia].
  - destruct (IH (Z.max x a)) as [Hin Hle]. split.
    + destruct Hin as [Hin | Hin]; [| now right; right].
      rewrite <- Hin. destruct (Z.max_spec x a) as [[_ ->] | [_ ->]]; auto.
    + intros y [<- | [<- | Hy]].
      * specialize (Hle (Z.max x a) (or_introl eq_refl)). lia.
      * specialize (Hle (Z.max x a) (or_introl eq_refl)). lia.
      * apply Hle. now right.
Qed.

Lemma Math_min_In (xs : list Z) : xs <> [] -> In (Math_min xs) xs.
Proof. destruct xs; [congruence | intros _; apply fold_min_spec]. Qed.

Lemma Math_min_le (xs : list Z) (y : Z) : In y xs -> Math_min xs <= y.
Proof. destruct xs; [intros [] | apply fold_min_spec]. Qed.

Lemma Math_max_In (xs : list Z) : xs <> [] -> In (Math_max xs) xs.
Proof. destruct xs; [congruence | intros _; apply fold_max_spec]. Qed.

Lemma Math_max_ge (xs : list Z) (y : Z) : In y xs -> y <= Math_max xs.
Proof. destruct xs; [intros [] | apply fold_max_spec]. Qed.

(** An element below all the others is the minimum. *)
Lemma Math_min_unique (xs : list Z) (m : Z) :
  In m xs -> (forall y, In y xs -> m <= y) -> Math_min xs = m.
Proof.
  intros Hin Hle.
  assert (Hne : xs <> []) by (intros ->; destruct Hin).
  pose proof (Math_min_le xs m Hin).
  pose proof (Hle _ (Math_min_In xs Hne)). lia.
Qed.

Lemma Math_max_unique (xs : list Z) (m : Z) :
  In m xs -> (forall y, In y xs -> y <= m) -> Math_max xs = m.
Proof.
  intros Hin Hle.
  assert (Hne : xs <> []) by (intros ->; destruct Hin).
  pose proof (Math_max_ge xs m Hin).
  pose proof (Hle _ (Math_max_In xs Hne)). lia.
Qed.

Lemma Math_min_le_max (xs : list Z) : xs <> [] -> Math_min xs <= Math_max xs.
Proof.
  intros Hne. pose proof (Math_min_In xs Hne) as Hin.
  apply Math_max_ge. assumption.
Qed.

Lemma box_In (r0 r1 c0 c1 : Z) (x : GridCell) :
  In x (box r0 r1 c0 c1) <->
  r0 <= row x <= r1 /\ c0 <= column x <= c1.
Proof.
  unfold box. rewrite in_flat_map. split.
  - intros [r [Hr Hx]]. apply in_map_iff in Hx as [c [<- Hc]].
    apply zrange_In in Hr, Hc. simpl. lia.
  - intros [Hr Hc]. exists (row x). split; [now apply zrange_In |].
    apply in_map_iff. exists (column x).
    split; [now destruct x | now apply zrange_In].
Qed.

Lemma flat_map_length_const {A B : Type} (f : A -> list B) (n : nat)
    (l : list A) :
  (forall a, List.length (f a) = n) ->
  List.length (flat_map f l) = (List.length l * n)%nat.
Proof.
  intros Hf. induction l as [| a l IH]; simpl; [reflexivity |].
  now rewrite length_app, Hf, IH.
Qed.

Lemma box_length (r0 r1 c0 c1 : Z) :
  List.length (box r0 r1 c0 c1) =
  (Z.to_nat (r1 - r0 + 1) * Z.to_nat (c1 - c0 + 1))%nat.
Proof.
  unfold box.
  rewrite (flat_map_length_const _ (Z.to_nat (c1 - c0 + 1))).
  - now rewrite zrange_length.
  - intros r. now rewrite length_map, zrange_length.
Qed.

Lemma box_NoDup (r0 r1 c0 c1 : Z) : NoDup (box r0 r1 c0 c1).
Proof.
  unfold box. generalize (zrange_NoDup r0 r1).
  induction (zrange r0 r1) as [| r rs IH]; intros Hnd; simpl.
  - constructor.
  - inversion Hnd as [| ? ? Hr Hrs]; subst.
    apply NoDup_app.
    + apply Finite.Injective_map_NoDup; [| apply zrange_NoDup].
      intros a b [= H]. exact H.
    + now apply IH.
    + intros x Hx Hx'. apply in_map_iff in Hx as [c [<- _]].
      apply in_flat_map in Hx' as [r' [Hr' Hx']].
      apply in_map_iff in Hx' as [c' [[= -> _] _]]. contradiction.
Qed.

Lemma box_nonempty (r0 r1 c0 c1 : Z) :
  r0 <= r1 -> c0 <= c1 -> box r0 r1 c0 c1 <> [].
Proof.
  intros Hr Hc E.
  assert (H : In (mkCell r0 c0) (box r0 r1 c0 c1))
    by (apply box_In; simpl; lia).
  rewrite E in H. destruct H.
Qed.

(** The extrema of a non-empty box are its corners. *)
Lemma box_bounds (r0 r1 c0 c1 : Z) :
  r0 <= r1 -> c0 <= c1 ->
  Math_min (map row (box r0 r1 c0 c1)) = r0 /\
  Math_max (map row (box r0 r1 c0 c1)) = r1 /\
  Math_min (map column (box r0 r1 c0 c1)) = c0 /\
  Math_max (map column (box r0 r1 c0 c1)) = c1.
Proof.
  intros Hr Hc.
  assert (Hin : forall r c, r0 <= r <= r1 -> c0 <= c <= c1 ->
                 In (mkCell r c) (box r0 r1 c0 c1))
    by (intros; apply box_In; simpl; lia).
  repeat split.
  - apply Math_min_unique.
    + apply in_map_iff. exists (mkCell r0 c0). split; [reflexivity |].
      apply Hin; lia.
    + intros y Hy. apply in_map_iff in Hy as [x [<- Hx]].
      apply box_In in Hx. lia.
  - apply Math_max_unique.
    + apply in_map_iff. exists (mkCell r1 c0). split; [reflexivity |].
      apply Hin; lia.
    + intros y Hy. apply in_map_iff in Hy as [x [<- Hx]].
      apply box_In in Hx. lia.
  - apply Math_min_unique.
    + apply in_map_iff. exists (mkCell r0 c0). split; [reflexivity |].
      apply Hin; lia.
    + intros y Hy. apply in_map_iff in Hy as [x [<- Hx]].
      apply box_In in Hx. lia.
  - apply Math_max_unique.
    + apply in_map_iff. exists (mkCell r0 c1). split; [reflexivity |].
      apply Hin; lia.
    + intros y Hy. apply in_map_iff in Hy as [x [<- Hx]].
      apply box_In in Hx. lia.
Qed.

Lemma isRectangularSelection_box (r0 r1 c0 c1 : Z) :
  r0 <= r1 -> c0 <= c1 -> isRectangularSelection (box r0 r1 c0 c1) = true.
Proof.
  intros Hr Hc. unfold isRectangularSelection.
  destruct (box_bounds r0 r1 c0 c1 Hr Hc) as [E1 [E2 [E3 E4]]].
  pose proof (box_nonempty r0 r1 c0 c1 Hr Hc) as Hne.
  destruct (box r0 r1 c0 c1) eqn:Eb; [congruence |].
  rewrite <- Eb in *. cbv zeta. rewrite E1, E2, E3, E4, box_length.
  apply Z.eqb_eq. rewrite Nat2Z.inj_mul. rewrite !Z2Nat.id by lia.
  reflexivity.
Qed.

Lemma expandToBoundingBox_box (cells : list GridCell) :
  cells <> [] ->
  expandToBoundingBox cells =
  box (Math_min (map row cells)) (Math_max (map row cells))
      (Math_min (map column cells)) (Math_max (map column cells)).
Proof. destruct cells; [congruence | reflexivity]. Qed.

(** C4: on a non-empty cell list [expandToBoundingBox] is idempotent and
    its result satisfies [isRectangularSelection]; on the empty list it
    returns the empty list. *)
Theorem expandToBoundingBox_idempotent_rectangular (cells : list GridCell) :
  (cells <> [] ->
   expandToBoundingBox (expandToBoundingBox cells) = expandToBoundingBox cells
   /\ isRectangularSelection (expandToBoundingBox cells) = true)
  /\ expandToBoundingBox [] = [].
Proof.
  split; [| reflexivity].
  intros Hne.
  assert (Hr : Math_min (map row cells) <= Math_max (map row cells))
    by (apply Math_min_le_max; destruct cells; [congruence | discriminate]).
  assert (Hc : Math_min (map column cells) <= Math_max (map column cells))
    by (apply Math_min_le_max; destruct cells; [congruence | discriminate]).
  rewrite (expandToBoundingBox_box cells Hne).
  split; [| now apply isRectangularSelection_box].
  rewrite expandToBoundingBox_box by now apply box_nonempty.
  destruct (box_bounds _ _ _ _ Hr Hc) as [-> [-> [-> ->]]]. reflexivity.
Qed.

Lemma expandToBoundingBox_idempotent_rectangular_witness :
  expandToBoundingBox (expandToBoundingBox [mkCell 0 0; mkCell 1 2]) =
  expandToBoundingBox [mkCell 0 0; mkCell 1 2]
  /\ isRectangularSelection (expandToBoundingBox [mkCell 0 0; mkCell 1 2])
     = true.
Proof.
  apply (proj1 (expandToBoundingBox_idempotent_rectangular
                  [mkCell 0 0; mkCell 1 2])).
  discriminate.
Defined.

(** ** Reading back the JSON value of a state *)

Lemma traverse_map {A : Type} (f : json -> option A) (g : A -> json)
    (l : list A) :
  (forall x, f (g x) = Some x) -> traverse f (map g l) = Some l.
Proof.
  intros Hfg. induction l as [| x l IH]; simpl; [reflexivity |].
  now rewrite Hfg, IH.
Qed.

Lemma cell_of_json_of_cell (c : GridCell) :
  cell_of_json (json_of_cell c) = Some c.
Proof. now destruct c. Qed.

Lemma track_of_json_of_track (t : TrackSize) :
  track_of_json (json_of_track t) = Some t.
Proof. now destruct t. Qed.

Lemma grid_of_json_of_grid (g : GridDefinition) :
  grid_of_json (json_of_grid g) = Some g.
Proof.
  destruct g as [rc cc rs cs gp rg cg p].
  unfold grid_of_json, json_of_grid, list_field, num_field, str_field.
  cbn [field assoc String.eqb Ascii.eqb Bool.eqb bind as_num as_arr as_str
       rowCount columnCount rowSizes columnSizes gap rowGap columnGap
       placeItems].
  rewrite !(traverse_map _ _ _ track_of_json_of_track).
  now destruct p.
Qed.

Lemma child_of_json_of_child (ch : GridChild) :
  child_of_json (json_of_child ch) = Some ch.
Proof.
  destruct ch as [i n cs lk an js al].
  unfold child_of_json, json_of_child, list_field, str_field, opt_field.
  cbn [id name cells locked areaName justifySelf alignSelf].
  destruct an as [an |], js as [[] |], al as [[] |];
    cbn [field assoc String.eqb Ascii.eqb Bool.eqb bind as_num as_arr as_str
         as_bool optional_member option_map app string_of_selfAlign
         selfAlign_of_json selfAlign_of_string];
    rewrite (traverse_map _ _ _ cell_of_json_of_cell); reflexivity.
Qed.

Lemma config_of_json_of_config (c : BreakpointConfig) :
  config_of_json (json_of_config c) = Some c.
Proof.
  destruct c as [g chs].
  unfold config_of_json, json_of_config, list_field.
  cbn [field assoc String.eqb Ascii.eqb Bool.eqb bind as_arr grid children].
  rewrite grid_of_json_of_grid.
  cbn [bind]. now rewrite (traverse_map _ _ _ child_of_json_of_child).
Qed.

Lemma layout_of_json_of_layout (s : LayoutState) :
  layout_of_json (json_of_layout s) = Some s.
Proof.
  destruct s as [bp [d t m]].
  unfold layout_of_json, json_of_layout, str_field.
  cbn [field assoc String.eqb Ascii.eqb Bool.eqb bind as_str
       activeBreakpoint breakpoints bp_desktop bp_tablet bp_mobile].
  rewrite !config_of_json_of_config. now destruct bp.
Qed.

Lemma deepCloneState_id (s : LayoutState) : deepCloneState s = s.
Proof. unfold deepCloneState. now rewrite layout_of_json_of_layout. Qed.

(** ** The history stacks *)

Lemma bp_get_set (bps : Breakpoints) (bp : BreakpointId)
    (cfg : BreakpointConfig) :
  bp_get (bp_set bps bp cfg) bp = cfg.
Proof. now destruct bp. Qed.

Lemma slice_last_length {A : Type} (n : nat) (xs : list A) :
  (List.length (slice_last n xs) <= n)%nat.
Proof. unfold slice_last. rewrite length_skipn. lia. Qed.

Lemma slice_last_all {A : Type} (n : nat) (xs : list A) :
  (List.length xs <= n)%nat -> slice_last n xs = xs.
Proof.
  intros H. unfold slice_last.
  replace (List.length xs - n)%nat with 0%nat by lia. reflexivity.
Qed.

Lemma slice_last_snoc {A : Type} (n : nat) (xs : list A) (x : A) :
  slice_last (S n) (xs ++ [x]) = slice_last n xs ++ [x].
Proof.
  unfold slice_last. rewrite length_app. simpl.
  replace (List.length xs + 1 - S n)%nat with (List.length xs - n)%nat by lia.
  rewrite skipn_app.
  replace (List.length xs - n - List.length xs)%nat with 0%nat by lia.
  reflexivity.
Qed.

Lemma slice_last_full {A : Type} (n : nat) (xs : list A) :
  List.length xs = S n -> slice_last n xs = tl xs.
Proof.
  intros H. unfold slice_last. rewrite H.
  replace (S n - n)%nat with 1%nat by lia. now destruct xs.
Qed.

Lemma rev_cons_snoc {A : Type} (xs t : list A) (x : A) :
  List.rev xs = x :: t -> xs = List.rev t ++ [x].
Proof.
  intros H. rewrite <- (rev_involutive xs), H. reflexivity.
Qed.

Lemma history_pushHistory (s : LayoutState) (e : Engine) :
  history (pushHistory s e) = slice_last 49 (history e) ++ [s].
Proof.
  unfold pushHistory, MAX_HISTORY. simpl.
  now rewrite deepCloneState_id, slice_last_snoc.
Qed.

Lemma history_mutate (m : Mutation) (e : Engine) :
  pushes m e ->
  history (mutate m e) = history (pushHistory (state e) e) /\
  historyForward (mutate m e) = [].
Proof.
  destruct m; simpl; intros Hp.
  - split; reflexivity.
  - split; reflexivity.
  - unfold deleteChild.
    destruct (option_string_eqb (selectedChildId e) i); split; reflexivity.
  - unfold endSelection. simpl.
    destruct (pendingSelection e); [congruence | split; reflexivity].
Qed.

Lemma stacks_bounded_push (s : LayoutState) (e e' : Engine) :
  history e' = history (pushHistory s e) -> historyForward e' = [] ->
  stacks_bounded e'.
Proof.
  intros Hh Hf. unfold stacks_bounded.
  rewrite Hh, Hf, history_pushHistory, length_app.
  pose proof (slice_last_length 49 (history e)).
  unfold MAX_HISTORY. simpl. lia.
Qed.

Lemma stacks_bounded_same (e e' : Engine) :
  history e' = history e -> historyForward e' = historyForward e ->
  stacks_bounded e -> stacks_bounded e'.
Proof. unfold stacks_bounded. now intros -> ->. Qed.

Lemma stacks_bounded_undo (e : Engine) :
  stacks_bounded e -> stacks_bounded (undo e).
Proof.
  unfold undo, stacks_bounded.
  destruct (List.rev (history e)) eqn:E; [trivial |].
  apply rev_cons_snoc in E. simpl. rewrite E.
  rewrite removelast_last, length_app. simpl. lia.
Qed.

Lemma stacks_bounded_redo (e : Engine) :
  stacks_bounded e -> stacks_bounded (redo e).
Proof.
  unfold redo, stacks_bounded.
  destruct (historyForward e) eqn:E; [now rewrite E |].
  simpl. rewrite E, length_app. simpl. lia.
Qed.

Lemma stacks_bounded_endSelection (newId : string) (e : Engine) :
  stacks_bounded e -> stacks_bounded (endSelection newId e).
Proof.
  intros He. unfold endSelection. simpl.
  destruct (pendingSelection e).
  - now apply (stacks_bounded_same e).
  - now apply (stacks_bounded_push (state e) e).
Qed.

Lemma stacks_bounded_deleteChild (i : string) (e : Engine) :
  stacks_bounded (deleteChild i e).
Proof.
  unfold deleteChild.
  destruct (option_string_eqb (selectedChildId e) i);
    now apply (stacks_bounded_push (state e) e).
Qed.

Lemma stacks_bounded_importData (data : json) (e e' : Engine) :
  stacks_bounded e ->
  importData data e = Accepted e' \/ importData data e = Refused e' ->
  stacks_bounded e'.
Proof.
  intros He. unfold importData.
  repeat match goal with
         | |- context [match ?x with _ => _ end] => destruct x
         end;
    intros [[= <-] | [= <-]]; try exact He;
    unfold stacks_bounded, MAX_HISTORY; simpl; lia.
Qed.

Lemma reachable_stacks_bounded {text : Type} {H : JSONHost text}
    (e : Engine) :
  reachable e -> stacks_bounded e.
Proof.
  induction 1 as [init | op e e' Hr IH Hrun].
  - unfold stacks_bounded, MAX_HISTORY. simpl. lia.
  - destruct op; simpl in Hrun;
      try (injection Hrun as <-;
           first [ now apply (stacks_bounded_same e)
                 | now apply (stacks_bounded_push (state e) e)
                 | now apply stacks_bounded_undo
                 | now apply stacks_bounded_redo
                 | now apply stacks_bounded_endSelection
                 | apply stacks_bounded_deleteChild ]).
    unfold importLayout in Hrun.
    destruct (JSON_parse json0) as [data |];
      [| injection Hrun as <-; exact IH].
    destruct (importData data e) eqn:E; try discriminate;
      injection Hrun as <-;
      apply (stacks_bounded_importData data e); auto.
Qed.

(** C9: the undo stack never holds more than 50 snapshots.  Every operation
    that pushes history leaves at most [MAX_HISTORY] = 50 of them, the new
    snapshot last; below the bound nothing is evicted, at the bound the
    oldest snapshot is; and no engine reachable through the operations of
    the hook holds more. *)
Theorem history_bounded {text : Type} {H : JSONHost text} :
  MAX_HISTORY = 50%nat /\
  (forall (m : Mutation) (e : Engine),
     pushes m e ->
     (List.length (history (mutate m e)) <= MAX_HISTORY)%nat /\
     ((List.length (history e) < MAX_HISTORY)%nat ->
      history (mutate m e) = history e ++ [state e]) /\
     (List.length (history e) = MAX_HISTORY ->
      history (mutate m e) = tl (history e) ++ [state e])) /\
  (forall e : Engine,
     reachable e -> (List.length (history e) <= MAX_HISTORY)%nat).
Proof.
  split; [reflexivity |]. split.
  - intros m e Hp. destruct (history_mutate m e Hp) as [-> _].
    rewrite history_pushHistory. unfold MAX_HISTORY. repeat split.
    + rewrite length_app. pose proof (slice_last_length 49 (history e)).
      simpl. lia.
    + intros Hlt. rewrite slice_last_all by lia. reflexivity.
    + intros Heq. now rewrite slice_last_full.
  - intros e Hr. pose proof (reachable_stacks_bounded e Hr) as Hb.
    unfold stacks_bounded in Hb. lia.
Qed.

Lemma history_bounded_witness :
  history (mutate (MSetRows 1) (useGridState None)) =
  history (useGridState None) ++ [state (useGridState None)].
Proof.
  apply (proj1 (proj2 (proj1 (proj2 (@history_bounded _ denotation_host))
                         (MSetRows 1) (useGridState None) I))).
  unfold MAX_HISTORY. simpl. lia.
Defined.

(** ** Resizing the grid *)

Lemma clampCount_range (count delta : Z) : 1 <= clampCount count delta <= 20.
Proof. unfold clampCount. lia. Qed.

Lemma clamped_resize_resizeSizes (count delta : Z) (sizes : list TrackSize) :
  clamped_resize count sizes delta (clampCount count delta)
    (resizeSizes sizes count (clampCount count delta)).
Proof.
  unfold clamped_resize, resizeSizes.
  pose proof (clampCount_range count delta) as Hr.
  repeat split; try lia; try (unfold clampCount; lia).
  - intros Hlt. destruct (Z.gtb_spec (clampCount count delta) count);
      [reflexivity | lia].
  - intros Hle. destruct (Z.gtb_spec (clampCount count delta) count);
      [lia | reflexivity].
Qed.

Lemma grid_setRows (delta : Z) (e : Engine) :
  grid (currentConfig (setRows delta e)) =
  let g := grid (currentConfig e) in
  mkGrid (clampCount (rowCount g) delta) (columnCount g)
         (resizeSizes (rowSizes g) (rowCount g)
                      (clampCount (rowCount g) delta))
         (columnSizes g) (gap g) (rowGap g) (columnGap g) (placeItems g).
Proof.
  unfold currentConfig, setRows, setRows_state. simpl.
  now rewrite bp_get_set.
Qed.

Lemma grid_setColumns (delta : Z) (e : Engine) :
  grid (currentConfig (setColumns delta e)) =
  let g := grid (currentConfig e) in
  mkGrid (rowCount g) (clampCount (columnCount g) delta) (rowSizes g)
         (resizeSizes (columnSizes g) (columnCount g)
                      (clampCount (columnCount g) delta))
         (gap g) (rowGap g) (columnGap g) (placeItems g).
Proof.
  unfold currentConfig, setColumns, setColumns_state. simpl.
  now rewrite bp_get_set.
Qed.

(** C6: for every engine and every integer [delta], [setRows] (and
    [setColumns] alike) clamps the new track count to [[1,20]], appends
    tracks [fr(1)] when the count grows and cuts the size list to the new
    count otherwise; so 20 rows plus one are 20 rows, and a resize down to
    0 gives 1 row. *)
Theorem resize_clamps (e : Engine) (delta : Z) :
  let g := grid (currentConfig e) in
  let gr := grid (currentConfig (setRows delta e)) in
  let gc := grid (currentConfig (setColumns delta e)) in
  clamped_resize (rowCount g) (rowSizes g) delta (rowCount gr) (rowSizes gr)
  /\ clamped_resize (columnCount g) (columnSizes g) delta
       (columnCount gc) (columnSizes gc)
  /\ (rowCount g = 20 -> delta = 1 -> rowCount gr = 20)
  /\ (rowCount g + delta = 0 -> rowCount gr = 1)
  /\ (columnCount g = 20 -> delta = 1 -> columnCount gc = 20)
  /\ (columnCount g + delta = 0 -> columnCount gc = 1).
Proof.
  cbv zeta. rewrite grid_setRows, grid_setColumns. cbv zeta. simpl.
  split; [apply clamped_resize_resizeSizes |].
  split; [apply clamped_resize_resizeSizes |].
  unfold clampCount. repeat split; intros; lia.
Qed.

(** Rows resized from 3 to 20, then by one more, then down by 25. *)
Example setRows_scenario :
  let e20 := setRows 17 (useGridState None) in
  rowCount (grid (currentConfig e20)) = 20
  /\ rowCount (grid (currentConfig (setRows 1 e20))) = 20
  /\ List.length (rowSizes (grid (currentConfig (setRows 1 e20)))) = 20%nat
  /\ rowCount (grid (currentConfig (setRows (-25) e20))) = 1
  /\ rowSizes (grid (currentConfig (setRows (-25) e20))) = [TS_fr 1].
Proof. repeat split. Qed.

Lemma resize_clamps_witness :
  rowSizes (grid (currentConfig (setRows 2 (useGridState None)))) =
  rowSizes (grid (currentConfig (useGridState None)))
  ++ repeat (TS_fr 1) 2.
Proof.
  destruct (resize_clamps (useGridState None) 2)
    as [[_ [_ [_ [_ [Hgrow _]]]]] _].
  apply Hgrow. vm_compute. reflexivity.
Defined.

(** ** Committing a selection *)

(** C10: [endSelection] on an empty pending selection leaves the layout
    state, the undo stack and the redo stack as they are, creates no child
    and only clears the selection-in-progress flag. *)
Theorem endSelection_empty (newId : string) (e : Engine) :
  pendingSelection e = [] ->
  endSelection newId e = setIsSelecting false e
  /\ state (endSelection newId e) = state e
  /\ history (endSelection newId e) = history e
  /\ historyForward (endSelection newId e) = historyForward e
  /\ children (currentConfig (endSelection newId e))
     = children (currentConfig e)
  /\ isSelecting (endSelection newId e) = false
  /\ pendingSelection (endSelection newId e) = [].
Proof.
  intros Hp. unfold endSelection. simpl. rewrite Hp.
  repeat split. unfold setPendingSelection, setIsSelecting. simpl.
  now rewrite Hp.
Qed.

Lemma endSelection_empty_witness :
  history (endSelection "id_1" (setIsSelecting true (useGridState None))) =
  history (setIsSelecting true (useGridState None)).
Proof.
  apply (endSelection_empty "id_1" (setIsSelecting true (useGridState None))).
  reflexivity.
Defined.

(** The first commit on the default layout makes one unlocked child
    [child1] holding the four cells dragged over. *)
Example endSelection_square :
  children (currentConfig (endSelection "id_1" square_drag)) =
  [mkChild "id_1" "child1"
           [mkCell 0 0; mkCell 0 1; mkCell 1 0; mkCell 1 1]
           false None None None].
Proof. reflexivity. Qed.

(** A selection with a gap is committed as its whole bounding box. *)
Example endSelection_gap :
  map cells (children (currentConfig (endSelection "id_1" gap_drag))) =
  [[mkCell 0 0; mkCell 0 1; mkCell 0 2]].
Proof. reflexivity. Qed.

(** What [endSelection] does when the expanded selection meets a cell of a
    locked child: the layout state is kept, and so are the children, but
    the snapshot taken before the test stays on the undo stack and the redo
    stack is emptied. *)
Lemma endSelection_locked_overlap (newId : string) (e : Engine) :
  pendingSelection e <> [] ->
  existsb (fun c => set_has (lockedCells (currentConfig e)) (cellKey c))
          (expandToBoundingBox (pendingSelection e)) = true ->
  state (endSelection newId e) = state e
  /\ history (endSelection newId e) = slice_last 49 (history e) ++ [state e]
  /\ historyForward (endSelection newId e) = [].
Proof.
  intros Hne Hov.
  assert (Hst : endSelection_state (expandToBoundingBox (pendingSelection e))
                  newId (useNamedAreas e) (state e) = state e).
  { unfold endSelection_state. unfold currentConfig in Hov.
    unfold active_config. now rewrite Hov. }
  unfold endSelection.
  cbn [pendingSelection setIsSelecting].
  destruct (pendingSelection e) as [| c cs] eqn:E; [congruence |].
  cbn [state history historyForward setPendingSelection setHistoryForward
       setState setHistory pushHistory setIsSelecting].
  rewrite Hst. repeat split. unfold MAX_HISTORY.
  now rewrite deepCloneState_id, slice_last_snoc.
Qed.

(** C1, as the code runs it: committing a selection over a locked child
    creates no child and keeps the layout state, but the undo stack grows by
    the snapshot pushed before the overlap test (from 1 entry to 2). *)
Theorem endSelection_locked_overlap_pushes_history :
  let e := locked_example in
  let e' := endSelection "id_2" e in
  existsb (fun c => set_has (lockedCells (currentConfig e)) (cellKey c))
          (expandToBoundingBox (pendingSelection e)) = true
  /\ state e' = state e
  /\ List.length (children (currentConfig e')) = 1%nat
  /\ List.length (history e) = 1%nat
  /\ List.length (history e') = 2%nat.
Proof. vm_compute. repeat split. Qed.

(** ** Undo and redo *)

Lemma rev_snoc {A : Type} (xs : list A) (x : A) :
  List.rev (xs ++ [x]) = x :: List.rev xs.
Proof. now rewrite rev_app_distr. Qed.

(** [undo] on an engine whose undo stack ends with [prev]. *)
Lemma undo_snoc (e : Engine) (h : list LayoutState) (prev : LayoutState) :
  history e = h ++ [prev] ->
  undo e =
  mkEngine prev h (state e :: historyForward e) None
           (pendingSelection e) (isSelecting e) (useNamedAreas e).
Proof.
  intros Hh. unfold undo. rewrite Hh, rev_snoc.
  unfold setSelectedChildId, setState, setHistoryForward, setHistory.
  cbn [state history historyForward selectedChildId pendingSelection
       isSelecting useNamedAreas].
  now rewrite Hh, removelast_last, !deepCloneState_id.
Qed.

Lemma redo_cons (e : Engine) (next : LayoutState) (f : list LayoutState) :
  historyForward e = next :: f ->
  redo e =
  mkEngine next (history e ++ [state e]) f (selectedChildId e)
           (pendingSelection e) (isSelecting e) (useNamedAreas e).
Proof.
  intros Hf. unfold redo. rewrite Hf.
  unfold setState, setHistoryForward, setHistory.
  cbn [state history historyForward selectedChildId pendingSelection
       isSelecting useNamedAreas].
  now rewrite Hf, !deepCloneState_id.
Qed.

(** C5: after a mutation that pushes history, [undo] restores exactly the
    layout state the mutation started from and clears the selected child;
    [redo] right after that [undo] restores the state that was undone; a
    fresh pushing mutation after the [undo] empties the redo stack; and
    [undo] on an empty undo stack changes nothing. *)
Theorem undo_redo (m : Mutation) (e : Engine) :
  pushes m e ->
  state (undo (mutate m e)) = state e
  /\ selectedChildId (undo (mutate m e)) = None
  /\ state (redo (undo (mutate m e))) = state (mutate m e)
  /\ canRedo (undo (mutate m e)) = true
  /\ (forall m' : Mutation,
        pushes m' (undo (mutate m e)) ->
        historyForward (mutate m' (undo (mutate m e))) = []
        /\ canRedo (mutate m' (undo (mutate m e))) = false)
  /\ (forall e0 : Engine, history e0 = [] -> undo e0 = e0).
Proof.
  intros Hp.
  destruct (history_mutate m e Hp) as [Hh Hf].
  rewrite history_pushHistory in Hh.
  pose proof (undo_snoc _ _ _ Hh) as Hu. rewrite Hf in Hu.
  assert (Hr : historyForward (undo (mutate m e)) = [state (mutate m e)])
    by now rewrite Hu.
  repeat split.
  - now rewrite Hu.
  - now rewrite Hu.
  - now rewrite (redo_cons _ _ _ Hr).
  - unfold canRedo. now rewrite Hr.
  - now apply history_mutate.
  - unfold canRedo.
    now rewrite (proj2 (history_mutate m' _ H)).
  - intros e0 H0. unfold undo. now rewrite H0.
Qed.

Lemma undo_redo_witness :
  state (undo (mutate (MSetRows 2) (useGridState None))) =
  state (useGridState None).
Proof.
  apply (undo_redo (MSetRows 2) (useGridState None)). exact I.
Defined.

(** ** Export and import *)

Lemma known_breakpoint_string (s : string) :
  known_breakpoint (Value (JStr s)) =
  match breakpoint_of_string s with Some _ => true | None => false end.
Proof.
  unfold known_breakpoint, breakpoint_of_string.
  destruct (String.eqb s "desktop"), (String.eqb s "tablet"),
    (String.eqb s "mobile"); reflexivity.
Qed.

(** [importData] refuses exactly the parsed texts that fail one of the
    three tests the code makes, and then hands the engine back. *)
Lemma importData_refuses (data : json) (e : Engine) :
  version_is_one data = false \/ has_truthy_breakpoints data = false
  \/ active_is_known data = false ->
  importData data e = Refused e.
Proof.
  unfold version_is_one, has_truthy_breakpoints, active_is_known,
    breakpoints_of, importData.
  destruct data as [| b | n | s | items | m]; try reflexivity.
  cbn [get field]. destruct (assoc "version" m) as [v |] eqn:Ev.
  2:{ intros _. reflexivity. }
  destruct (assoc "layout" m) as [l |] eqn:El.
  2:{ intros _. cbn [get_opt truthy_access negb]. now rewrite orb_true_r. }
  cbn [bind get_opt].
  destruct l as [| b | n | s | items | lm];
    try (intros _; cbn [get truthy_access negb];
         now rewrite orb_true_r).
  cbn [get field].
  destruct (assoc "breakpoints" lm) as [bv |] eqn:Eb.
  2:{ intros _. cbn [truthy_access negb]. now rewrite orb_true_r. }
  cbn [truthy_access].
  destruct (assoc "activeBreakpoint" lm) as [a |] eqn:Ea.
  - intros [Hv | [Ht | Ha]].
    + destruct v as [| | n | | |]; try reflexivity.
      cbn [is_not_one].
      destruct n as [| [p | p |] |]; try discriminate; reflexivity.
    + rewrite Ht. cbn [negb]. now rewrite orb_true_r.
    + destruct (is_not_one (Value v) || negb (truthy bv))%bool;
        [reflexivity |].
      destruct a as [| | | s | |]; try reflexivity.
      rewrite known_breakpoint_string.
      destruct (breakpoint_of_string s); [discriminate | reflexivity].
  - intros _.
    destruct (is_not_one (Value v) || negb (truthy bv))%bool; reflexivity.
Qed.

Lemma importData_accepts (data : json) (e : Engine) :
  version_is_one data = true -> has_truthy_breakpoints data = true ->
  active_is_known data = true ->
  returned (importData data e) = true.
Proof.
  unfold version_is_one, has_truthy_breakpoints, active_is_known,
    breakpoints_of, importData.
  destruct data as [| b | n | s | items | m]; try discriminate.
  cbn [get field].
  destruct (assoc "version" m) as [[| | [| [p | p |] |] | | |] |];
    try discriminate.
  intros _.
  destruct (assoc "layout" m) as [l |]; [| discriminate].
  cbn [bind get_opt].
  destruct l as [| b | n | s | items | lm]; try discriminate.
  cbn [get field].
  destruct (assoc "breakpoints" lm) as [bv |]; [| discriminate].
  intros Ht. cbn [truthy_access is_not_one Z.eqb Pos.eqb negb orb].
  rewrite Ht. cbn [negb].
  destruct (assoc "activeBreakpoint" lm) as [[| | | s | |] |];
    try discriminate.
  rewrite known_breakpoint_string.
  destruct (breakpoint_of_string s); [| discriminate].
  intros _. cbn [negb]. destruct (layout_of_json (JObj lm)); reflexivity.
Qed.

(** C7, as the code has it: [importLayout] returns false and hands back the
    engine untouched whenever the text is not valid JSON, or its version is
    not the number 1, or its layout has no [breakpoints] property or a falsy
    one, or its [activeBreakpoint] is not one of desktop, tablet, mobile; and
    on every text it either does that or returns true: there is no third
    outcome, no fault. *)
Theorem importLayout_refuses {text : Type} {H : JSONHost text}
    (t : text) (e : Engine) :
  ((JSON_parse t = None \/
    exists data, JSON_parse t = Some data /\
      (version_is_one data = false \/ has_truthy_breakpoints data = false
       \/ active_is_known data = false)) ->
   importLayout t e = Refused e /\ returned (importLayout t e) = false)
  /\ (importLayout t e = Refused e \/ returned (importLayout t e) = true).
Proof.
  unfold importLayout. split.
  - intros [-> | [data [-> Hbad]]]; [now split |].
    now rewrite (importData_refuses data e Hbad).
  - destruct (JSON_parse t) as [data |]; [| now left].
    destruct (version_is_one data) eqn:Hv;
      [| left; apply importData_refuses; auto].
    destruct (has_truthy_breakpoints data) eqn:Ht;
      [| left; apply importData_refuses; auto].
    destruct (active_is_known data) eqn:Ha;
      [| left; apply importData_refuses; auto].
    right. now apply importData_accepts.
Qed.

Lemma importLayout_refuses_witness :
  @importLayout _ denotation_host None (useGridState None) =
  Refused (useGridState None).
Proof.
  apply (proj1 (@importLayout_refuses _ denotation_host None
                  (useGridState None))).
  left. reflexivity.
Defined.

(** C7 as stated fails: a text whose [breakpoints] is the number 5 has no
    breakpoints map, and [importLayout] returns true on it. *)
Lemma importLayout_accepts_number_breakpoints :
  ~ (forall (text : Type) (H : JSONHost text) (t : text) (e : Engine)
       (data : json),
       JSON_parse t = Some data -> has_breakpoints_map data = false ->
       returned (importLayout t e) = false).
Proof.
  intros Hclaim.
  specialize (Hclaim _ denotation_host (Some number_breakpoints_doc)
                (useGridState None) number_breakpoints_doc
                eq_refl eq_refl).
  vm_compute in Hclaim. discriminate.
Qed.

Lemma get_json_of_layout_breakpoints (s : LayoutState) :
  truthy_access (get (json_of_layout s) "breakpoints") = true.
Proof. reflexivity. Qed.

Lemma get_json_of_layout_active (s : LayoutState) :
  known_breakpoint (get (json_of_layout s) "activeBreakpoint") = true.
Proof. now destruct s as [[] bps]. Qed.

(** C2: for every layout state, the text written by [exportLayout] is
    accepted by [importLayout], which restores exactly the state exported
    (whatever the [exportedAt] stamp) and empties both history stacks and
    the selected child.  All that is asked of the host is that its [parse]
    reads the exported text back as the value its [stringify] was given. *)
Theorem import_export_roundtrip {text : Type} {H : JSONHost text}
    (exportedAt : string) (e e' : Engine) :
  reads_back H (exportData (state e) exportedAt) ->
  importLayout (exportLayout exportedAt e) e' =
  Accepted (mkEngine (state e) [] [] None (pendingSelection e')
                     (isSelecting e') (useNamedAreas e'))
  /\ returned (importLayout (exportLayout exportedAt e) e') = true.
Proof.
  intros Hback.
  assert (E : importLayout (exportLayout exportedAt e) e' =
              Accepted (mkEngine (state e) [] [] None (pendingSelection e')
                                 (isSelecting e') (useNamedAreas e'))).
  { unfold importLayout, exportLayout. rewrite Hback.
    unfold importData, exportData. rewrite deepCloneState_id.
    cbn [get assoc String.eqb Ascii.eqb Bool.eqb is_not_one Z.eqb Pos.eqb
         negb orb].
    assert (Hg : get_opt (Value (json_of_layout (state e))) "breakpoints"
                 = get (json_of_layout (state e)) "breakpoints")
      by reflexivity.
    rewrite Hg, get_json_of_layout_breakpoints.
    cbn [negb]. rewrite get_json_of_layout_active. cbn [negb].
    rewrite layout_of_json_of_layout, deepCloneState_id. reflexivity. }
  rewrite E. split; reflexivity.
Qed.

Lemma import_export_roundtrip_witness :
  @importLayout _ denotation_host
     (@exportLayout _ denotation_host "2026-01-01T00:00:00.000Z"
        (endSelection "id_1" square_drag))
     (useGridState None) =
  Accepted (mkEngine (state (endSelection "id_1" square_drag))
                     [] [] None [] false false).
Proof.
  apply (@import_export_roundtrip _ denotation_host
           "2026-01-01T00:00:00.000Z" (endSelection "id_1" square_drag)
           (useGridState None)).
  reflexivity.
Defined.

(** ** Area names *)

Lemma toClassName_nonempty (name : string) : toClassName name <> EmptyString.
Proof.
  unfold toClassName, or_else.
  destruct (replace_spaces false (trim name)); discriminate.
Qed.

(** The test [if (!areaName) continue] never fires: a child with cells is
    always painted. *)
Lemma paintChild_paints (g : list (list Slot)) (ch : GridChild) :
  cells ch <> [] ->
  paintChild g ch =
  paintBox g (Math_min (map row (cells ch))) (Math_max (map row (cells ch)))
           (Math_min (map column (cells ch)))
           (Math_max (map column (cells ch)))
           (toClassName (nullish (areaName ch) (name ch))).
Proof.
  intros Hne. unfold paintChild.
  pose proof (toClassName_nonempty (nullish (areaName ch) (name ch))) as Hn.
  destruct (toClassName (nullish (areaName ch) (name ch))); [congruence |].
  destruct (cells ch); [congruence | reflexivity].
Qed.

(** Through [toClassName] an empty name, or a blank area name, becomes
    ["child"], and the cell is painted with it. *)
Example generateTemplateAreas_blank_name_painted :
  generateTemplateAreas 1 1 [unnamed_child]
  = Some (dquote ++ "child" ++ dquote)%string
  /\ generateTemplateAreas 1 1 [blank_area_child]
     = Some (dquote ++ "child" ++ dquote)%string
  /\ generateTemplateAreas 1 1 [] = Some (dquote ++ "." ++ dquote)%string.
Proof. repeat split. Qed.




(** ** The greedy rectangle partition *)

Lemma GridCell_eq_dec (a b : GridCell) : {a = b} + {a <> b}.
Proof. decide equality; apply Z.eq_dec. Qed.

Lemma in_map_cellKey (cs : list GridCell) (x : GridCell) :
  In (cellKey x) (map cellKey cs) <-> In x cs.
Proof.
  rewrite in_map_iff. split.
  - intros [y [Hy Hin]]. apply cellKey_inj in Hy. now subst.
  - intros Hin. now exists x.
Qed.

Lemma has_In (cs : list GridCell) (r c : Z) :
  has (map cellKey cs) r c = true <-> In (mkCell r c) cs.
Proof.
  unfold has. rewrite cellKey_mkCell, set_has_In. apply in_map_cellKey.
Qed.

Lemma has_not_In (cs : list GridCell) (r c : Z) :
  has (map cellKey cs) r c = false <-> ~ In (mkCell r c) cs.
Proof.
  rewrite <- has_In. destruct (has (map cellKey cs) r c); split; congruence.
Qed.

(** The working set seen as the list of the cells whose keys it holds. *)
Lemma fold_set_add_cells (cells acc : list GridCell) :
  NoDup acc ->
  exists cs,
    fold_left set_add (map cellKey cells) (map cellKey acc) = map cellKey cs
    /\ NoDup cs /\ forall c, In c cs <-> In c acc \/ In c cells.
Proof.
  revert acc. induction cells as [| x cells IH]; intros acc Hacc; simpl.
  - exists acc. intuition.
  - unfold set_add at 2.
    destruct (set_has (map cellKey acc) (cellKey x)) eqn:E.
    + apply set_has_In, in_map_cellKey in E.
      destruct (IH acc Hacc) as [cs [H1 [H2 H3]]].
      exists cs. repeat split; auto.
      * intros Hc. apply H3 in Hc. intuition.
      * intros [Hc | [<- | Hc]]; apply H3; auto.
    + apply set_has_false in E. rewrite in_map_cellKey in E.
      assert (Hnd : NoDup (acc ++ [x])).
      { apply NoDup_app; [assumption | repeat constructor; intros [] |].
        intros y Hy [<- | []]. contradiction. }
      destruct (IH (acc ++ [x]) Hnd) as [cs [H1 [H2 H3]]].
      exists cs. rewrite map_app in H1. repeat split; auto.
      * intros Hc. apply H3 in Hc. rewrite in_app_iff in Hc. simpl in Hc.
        intuition.
      * intros Hc. apply H3. rewrite in_app_iff. simpl. intuition.
Qed.

Lemma cellKeySet_cells (cells : list GridCell) :
  exists cs,
    cellKeySet cells = map cellKey cs
    /\ NoDup cs /\ forall c, In c cs <-> In c cells.
Proof.
  destruct (fold_set_add_cells cells [] (NoDup_nil _)) as [cs [H1 [H2 H3]]].
  exists cs. repeat split; auto.
  - intros Hc. apply H3 in Hc. now destruct Hc.
  - intros Hc. apply H3. now right.
Qed.

Lemma filter_map_comm {A B : Type} (f : A -> B) (p : B -> bool)
    (l : list A) :
  filter p (map f l) = map f (filter (fun x => p (f x)) l).
Proof.
  induction l as [| a l IH]; simpl; [reflexivity |].
  destruct (p (f a)); simpl; now rewrite IH.
Qed.

Lemma removeRegion_cells (region cs : list GridCell) :
  NoDup cs ->
  exists cs',
    removeRegion (map cellKey cs) region = map cellKey cs'
    /\ NoDup cs' /\ forall c, In c cs' <-> In c cs /\ ~ In c region.
Proof.
  unfold removeRegion. revert cs.
  induction region as [| x region IH]; intros cs Hcs; simpl.
  - exists cs. intuition.
  - unfold set_delete at 2. rewrite filter_map_comm.
    set (cs1 := filter (fun y => negb (String.eqb (cellKey y) (cellKey x)))
                       cs).
    assert (H1 : NoDup cs1) by now apply NoDup_filter.
    destruct (IH cs1 H1) as [cs' [E [Hnd Hin]]].
    exists cs'. repeat split; auto.
    + apply Hin in H. destruct H as [H _]. apply filter_In in H. tauto.
    + apply Hin in H. destruct H as [H Hr]. apply filter_In in H.
      destruct H as [_ H]. apply negb_true_iff, String.eqb_neq in H.
      intros [<- | Hx]; [congruence | contradiction].
    + intros [Hc Hn]. apply Hin. split; [| tauto].
      apply filter_In. split; [assumption |].
      apply negb_true_iff, String.eqb_neq. intros Hk.
      apply cellKey_inj in Hk. subst. apply Hn. now left.
Qed.

(** A run of distinct elements of a duplicate-free list is no longer than
    the list; this bounds the growth loops and the search of a name. *)
Lemma run_length_bound {A : Type} (cs : list A) (f : Z -> A) (lo hi : Z) :
  NoDup cs -> (forall i j, f i = f j -> i = j) ->
  (forall i, lo <= i <= hi -> In (f i) cs) ->
  (Z.to_nat (hi - lo + 1) <= List.length cs)%nat.
Proof.
  intros Hnd Hinj Hin.
  rewrite <- zrange_length, <- (length_map f).
  apply NoDup_incl_length.
  - apply Finite.Injective_map_NoDup; [exact Hinj | apply zrange_NoDup].
  - intros x Hx. apply in_map_iff in Hx as [i [<- Hi]].
    apply Hin. now apply zrange_In.
Qed.

Lemma growRight_spec (fuel : nat) (cs : list GridCell) (r0 c0 cEnd : Z) :
  NoDup cs -> c0 <= cEnd ->
  (forall c, c0 <= c <= cEnd -> In (mkCell r0 c) cs) ->
  (Z.to_nat (cEnd - c0 + 1) + fuel > List.length cs)%nat ->
  exists cEnd',
    growRight fuel (map cellKey cs) r0 cEnd = Some cEnd'
    /\ cEnd <= cEnd'
    /\ (forall c, c0 <= c <= cEnd' -> In (mkCell r0 c) cs)
    /\ ~ In (mkCell r0 (cEnd' + 1)) cs.
Proof.
  intros Hnd. revert cEnd.
  induction fuel as [| fuel IH]; intros cEnd Hle Hrun Hfuel.
  - exfalso.
    pose proof (run_length_bound cs (mkCell r0) c0 cEnd Hnd) as Hb.
    assert (Z.to_nat (cEnd - c0 + 1) <= List.length cs)%nat.
    { apply Hb; [intros i j [= E]; exact E | exact Hrun]. }
    lia.
  - simpl. destruct (has (map cellKey cs) r0 (cEnd + 1)) eqn:E.
    + apply has_In in E.
      destruct (IH (cEnd + 1)) as [cEnd' [H1 [H2 [H3 H4]]]].
      * lia.
      * intros c Hc. destruct (Z.eq_dec c (cEnd + 1)) as [-> | Hn];
          [assumption | apply Hrun; lia].
      * lia.
      * exists cEnd'. repeat split; auto. lia.
    + apply has_not_In in E. exists cEnd. repeat split; auto. lia.
Qed.

Lemma forallb_has_row (cs : list GridCell) (r c0 cEnd : Z) :
  forallb (fun c => has (map cellKey cs) r c) (zrange c0 cEnd) = true <->
  forall c, c0 <= c <= cEnd -> In (mkCell r c) cs.
Proof.
  rewrite forallb_forall. split.
  - intros H c Hc. apply has_In, H, zrange_In. exact Hc.
  - intros H c Hc. apply has_In, H, zrange_In. exact Hc.
Qed.

Lemma growDown_spec (fuel : nat) (cs : list GridCell) (r0 c0 cEnd rEnd : Z) :
  NoDup cs -> r0 <= rEnd -> c0 <= cEnd ->
  (forall r c, r0 <= r <= rEnd -> c0 <= c <= cEnd -> In (mkCell r c) cs) ->
  (Z.to_nat (rEnd - r0 + 1) + fuel > List.length cs)%nat ->
  exists rEnd',
    growDown fuel (map cellKey cs) c0 cEnd rEnd = Some rEnd'
    /\ rEnd <= rEnd'
    /\ (forall r c, r0 <= r <= rEnd' -> c0 <= c <= cEnd ->
                    In (mkCell r c) cs).
Proof.
  intros Hnd. revert rEnd.
  induction fuel as [| fuel IH]; intros rEnd Hr Hc Hbox Hfuel.
  - exfalso.
    pose proof (run_length_bound cs (fun r => mkCell r c0) r0 rEnd Hnd) as Hb.
    assert (Z.to_nat (rEnd - r0 + 1) <= List.length cs)%nat.
    { apply Hb; [intros i j [= E]; exact E |].
      intros i Hi. apply Hbox; lia. }
    lia.
  - simpl.
    destruct (forallb (fun c => has (map cellKey cs) (rEnd + 1) c)
                      (zrange c0 cEnd)) eqn:E.
    + rewrite forallb_has_row in E.
      destruct (IH (rEnd + 1)) as [rEnd' [H1 [H2 H3]]].
      * lia.
      * exact Hc.
      * intros r c Hr' Hc'.
        destruct (Z.eq_dec r (rEnd + 1)) as [-> | Hn];
          [now apply E | apply Hbox; lia].
      * lia.
      * exists rEnd'. repeat split; auto. lia.
    + exists rEnd. repeat split; auto. lia.
Qed.

Lemma flat_map_ext_in {A B : Type} (f g : A -> list B) (l : list A) :
  (forall a, In a l -> f a = g a) -> flat_map f l = flat_map g l.
Proof.
  induction l as [| a l IH]; intros H; simpl; [reflexivity |].
  rewrite (H a (or_introl eq_refl)), IH; [reflexivity |].
  intros b Hb. apply H. now right.
Qed.

Lemma flat_map_single {A B : Type} (h : A -> B) (l : list A) :
  flat_map (fun a => [h a]) l = map h l.
Proof. induction l as [| a l IH]; simpl; [reflexivity | now rewrite IH]. Qed.

(** Over a box whose cells are all in the set, the filtering loops collect
    the whole box. *)
Lemma collectRegion_full (cs : list GridCell) (r0 rEnd c0 cEnd : Z) :
  (forall r c, r0 <= r <= rEnd -> c0 <= c <= cEnd -> In (mkCell r c) cs) ->
  collectRegion (map cellKey cs) r0 rEnd c0 cEnd = box r0 rEnd c0 cEnd.
Proof.
  intros Hbox. unfold collectRegion, box.
  apply flat_map_ext_in. intros r Hr. apply zrange_In in Hr.
  rewrite <- (flat_map_single (fun c => mkCell r c)).
  apply flat_map_ext_in. intros c Hc. apply zrange_In in Hc.
  assert (E : has (map cellKey cs) r c = true) by (apply has_In; auto).
  now rewrite E.
Qed.

Lemma splitLoop_step (fuel : nat) (k : string) (set : KeySet)
    (result : list (list GridCell)) :
  splitLoop (S fuel) (k :: set) result =
  match parseKey k with
  | None => None
  | Some (r0, c0) =>
      match growRight (S (List.length (k :: set))) (k :: set) r0 c0 with
      | None => None
      | Some cEnd =>
          match growDown (S (List.length (k :: set))) (k :: set) c0 cEnd r0
          with
          | None => None
          | Some rEnd =>
              let region := collectRegion (k :: set) r0 rEnd c0 cEnd in
              splitLoop fuel (removeRegion (k :: set) region)
                        (result ++ [region])
          end
      end
  end.
Proof. reflexivity. Qed.

(** One round of the loop: the region taken out is a full box of cells of
    the set that holds the seed. *)
Lemma split_round (seed : GridCell) (rest : list GridCell) :
  NoDup (seed :: rest) ->
  exists cEnd rEnd,
    growRight (S (List.length (map cellKey (seed :: rest))))
              (map cellKey (seed :: rest)) (row seed) (column seed)
    = Some cEnd
    /\ growDown (S (List.length (map cellKey (seed :: rest))))
                (map cellKey (seed :: rest)) (column seed) cEnd (row seed)
       = Some rEnd
    /\ row seed <= rEnd /\ column seed <= cEnd
    /\ collectRegion (map cellKey (seed :: rest))
                     (row seed) rEnd (column seed) cEnd
       = box (row seed) rEnd (column seed) cEnd
    /\ forall c, In c (box (row seed) rEnd (column seed) cEnd) ->
                 In c (seed :: rest).
Proof.
  intros Hnd. set (cs := seed :: rest) in *.
  assert (Hseed : In (mkCell (row seed) (column seed)) cs)
    by (destruct seed; now left).
  destruct (growRight_spec (S (List.length (map cellKey cs))) cs
              (row seed) (column seed) (column seed))
    as [cEnd [H1 [H2 [H3 _]]]]; auto.
  - lia.
  - intros c Hc. replace c with (column seed) by lia. exact Hseed.
  - rewrite length_map. lia.
  - destruct (growDown_spec (S (List.length (map cellKey cs))) cs
                (row seed) (column seed) cEnd (row seed))
      as [rEnd [G1 [G2 G3]]]; auto.
    + lia.
    + intros r c Hr Hc. replace r with (row seed) by lia. now apply H3.
    + rewrite length_map. lia.
    + exists cEnd, rEnd. repeat split; auto.
      * now apply collectRegion_full.
      * intros c Hc. apply box_In in Hc. destruct c as [r c]. simpl in Hc.
        apply G3; lia.
Qed.

Lemma splitLoop_spec (fuel : nat) :
  forall (cs : list GridCell) (acc : list (list GridCell)),
    NoDup cs -> (List.length cs <= fuel)%nat ->
    exists rects,
      splitLoop fuel (map cellKey cs) acc = Some (acc ++ rects)
      /\ NoDup (List.concat rects)
      /\ (forall c, In c (List.concat rects) <-> In c cs)
      /\ Forall (fun r => isRectangularSelection r = true) rects.
Proof.
  induction fuel as [| fuel IH]; intros cs acc Hnd Hlen.
  - destruct cs; [| simpl in Hlen; lia].
    exists []. simpl. rewrite app_nil_r.
    repeat split; auto; constructor.
  - destruct cs as [| seed rest].
    { exists []. simpl. rewrite app_nil_r.
      repeat split; auto; constructor. }
    destruct (split_round seed rest Hnd)
      as [cEnd [rEnd [H1 [H2 [Hr [Hc [Hcol Hsub]]]]]]].
    change (map cellKey (seed :: rest))
      with (cellKey seed :: map cellKey rest) in *.
    rewrite splitLoop_step, parseKey_cellKey, H1, H2. cbv zeta.
    rewrite Hcol.
    set (region := box (row seed) rEnd (column seed) cEnd) in *.
    change (cellKey seed :: map cellKey rest)
      with (map cellKey (seed :: rest)).
    destruct (removeRegion_cells region (seed :: rest) Hnd)
      as [cs' [E [Hnd' Hin']]].
    rewrite E.
    assert (Hseed : In seed region).
    { apply box_In. lia. }
    assert (Hlen' : (List.length cs' <= fuel)%nat).
    { assert (S (List.length cs') <= List.length (seed :: rest))%nat.
      { change (S (List.length cs')) with (List.length (seed :: cs')).
        apply NoDup_incl_length.
        - constructor; [| assumption]. intros Hs. apply Hin' in Hs. tauto.
        - intros x [<- | Hx]; [now left | now apply Hin'].  }
      simpl in *. lia. }
    destruct (IH cs' (acc ++ [region]) Hnd' Hlen')
      as [rects [R1 [R2 [R3 R4]]]].
    exists (region :: rects). rewrite R1, <- app_assoc. simpl.
    repeat split.
    + apply NoDup_app; [apply box_NoDup | assumption |].
      intros x Hx Hx'. apply R3, Hin' in Hx'. tauto.
    + intros Hx. apply in_app_iff in Hx as [Hx | Hx].
      * now apply Hsub.
      * now apply R3, Hin' in Hx.
    + intros Hx. apply in_app_iff.
      destruct (in_dec GridCell_eq_dec c region) as [Hy | Hn];
        [now left | right].
      apply R3, Hin'. now split.
    + constructor; [| assumption].
      now apply isRectangularSelection_box.
Qed.

(** An L of three cells is cut into its top row and the cell below. *)
Example splitIntoRectangles_L :
  splitIntoRectangles [mkCell 0 0; mkCell 0 1; mkCell 1 0; mkCell 0 0] =
  Some [[mkCell 0 0; mkCell 0 1]; [mkCell 1 0]].
Proof. vm_compute. reflexivity. Qed.

(** C3: for every cell list, [splitIntoRectangles] returns; the cells of
    the rectangles it returns, taken together, are exactly the input cells,
    each once (none lost, none in two rectangles); and every rectangle
    returned satisfies [isRectangularSelection]. *)
Theorem splitIntoRectangles_partition (cells : list GridCell) :
  exists rects,
    splitIntoRectangles cells = Some rects
    /\ (forall c, In c (List.concat rects) <-> In c cells)
    /\ NoDup (List.concat rects)
    /\ Forall (fun r => isRectangularSelection r = true) rects.
Proof.
  destruct cells as [| x cells].
  - exists []. simpl. repeat split; auto; constructor.
  - unfold splitIntoRectangles.
    destruct (cellKeySet_cells (x :: cells)) as [cs [E [Hnd Hin]]].
    cbv zeta. rewrite E, length_map.
    destruct (splitLoop_spec (List.length cs) cs [] Hnd (le_n _))
      as [rects [R1 [R2 [R3 R4]]]].
    exists rects. simpl in R1. repeat split; auto.
    + intros Hc. now apply Hin, R3.
    + intros Hc. now apply R3, Hin.
Qed.

(** ** The default name of a new child *)

Lemma nextChildName_loop_spec (fuel : nat) (used : KeySet) (n : Z) :
  NoDup used -> 1 <= n ->
  (forall i, 1 <= i <= n - 1 ->
             In (childName i) used) ->
  (Z.to_nat (n - 1) + fuel > List.length used)%nat ->
  exists k,
    n <= k
    /\ nextChildName_loop fuel used n = (childName k)
    /\ ~ In (childName k) used
    /\ forall i, 1 <= i <= k - 1 ->
                 In (childName i) used.
Proof.
  intros Hnd. revert n.
  induction fuel as [| fuel IH]; intros n Hn Hrun Hfuel.
  - exfalso.
    pose proof (run_length_bound used
                  childName 1 (n - 1) Hnd)
      as Hb.
    assert (Z.to_nat (n - 1 - 1 + 1) <= List.length used)%nat.
    { apply Hb; [| exact Hrun].
      unfold childName. intros i j [= E]. now apply string_of_Z_inj. }
    lia.
  - cbn [nextChildName_loop].
    destruct (set_has used (childName n)) eqn:E.
    + apply set_has_In in E.
      destruct (IH (n + 1)) as [k [H1 [H2 [H3 H4]]]].
      * lia.
      * intros i Hi. destruct (Z.eq_dec i n) as [-> | Hne];
          [assumption | apply Hrun; lia].
      * lia.
      * exists k. split; [lia |]. split; [exact H2 |]. split; assumption.
    + apply set_has_false in E. exists n.
      split; [lia |]. split; [reflexivity |]. split; assumption.
Qed.

(** [nextChildName] answers [child{k}] for the least [k >= 1] whose name no
    child bears: the fuel of its loop never runs out. *)
Lemma nextChildName_unused (children : list GridChild) :
  exists k,
    1 <= k
    /\ nextChildName children = (childName k)
    /\ ~ In (nextChildName children) (map name children)
    /\ forall i, 1 <= i < k ->
                 In (childName i) (map name children).
Proof.
  unfold nextChildName.
  destruct (nextChildName_loop_spec
              (S (List.length (Set_of (map name children))))
              (Set_of (map name children)) 1)
    as [k [H1 [H2 [H3 H4]]]].
  - apply Set_of_NoDup.
  - lia.
  - intros i Hi. lia.
  - simpl. lia.
  - exists k. rewrite H2.
    split; [exact H1 |]. split; [reflexivity |]. split.
    + intros Hin. apply H3. now apply Set_of_In.
    + intros i Hi. apply Set_of_In, H4. lia.
Qed.

(* ================================================================= *)
(** * Further properties of the selection geometry *)

(** X1: a cell key is read back as the coordinates it was made from, so
    two cells have the same key only when they are the same cell. *)
Theorem cellKey_collision_free (a b : GridCell) :
  parseKey (cellKey a) = Some (row a, column a)
  /\ (cellKey a = cellKey b <-> a = b).
Proof.
  split; [apply parseKey_cellKey |].
  split; [apply cellKey_inj | now intros ->].
Qed.

Lemma cells_in_own_box (cells : list GridCell) (c : GridCell) :
  In c cells -> In c (expandToBoundingBox cells).
Proof.
  intros Hin.
  assert (Hne : cells <> []) by (intros ->; destruct Hin).
  rewrite (expandToBoundingBox_box cells Hne). apply box_In.
  pose proof (in_map row _ _ Hin) as Hr.
  pose proof (in_map column _ _ Hin) as Hc.
  pose proof (Math_min_le _ _ Hr). pose proof (Math_max_ge _ _ Hr).
  pose proof (Math_min_le _ _ Hc). pose proof (Math_max_ge _ _ Hc).
  lia.
Qed.

Lemma expandToBoundingBox_NoDup (cells : list GridCell) :
  NoDup (expandToBoundingBox cells).
Proof.
  destruct cells as [| x cells]; [constructor |].
  rewrite expandToBoundingBox_box by discriminate. apply box_NoDup.
Qed.

Lemma isRectangularSelection_length (cells : list GridCell) :
  cells <> [] ->
  isRectangularSelection cells = true <->
  List.length cells = List.length (expandToBoundingBox cells).
Proof.
  intros Hne.
  pose proof (Math_min_le_max (map row cells)) as Hr.
  pose proof (Math_min_le_max (map column cells)) as Hc.
  assert (map row cells <> []) by (destruct cells; [congruence | discriminate]).
  assert (map column cells <> [])
    by (destruct cells; [congruence | discriminate]).
  specialize (Hr ltac:(assumption)). specialize (Hc ltac:(assumption)).
  rewrite (expandToBoundingBox_box cells Hne), box_length.
  unfold isRectangularSelection.
  destruct cells as [| x cells']; [congruence |].
  set (cells := x :: cells') in *. cbv zeta. rewrite Z.eqb_eq.
  rewrite <- (Z2Nat.id (Math_max (map row cells)
                        - Math_min (map row cells) + 1)) at 1 by lia.
  rewrite <- (Z2Nat.id (Math_max (map column cells)
                        - Math_min (map column cells) + 1)) at 1 by lia.
  rewrite <- Nat2Z.inj_mul. split; [apply Nat2Z.inj | now intros ->].
Qed.

(** X2: on a list without duplicates, [isRectangularSelection] answers
    true exactly when the list is not empty and holds every cell of its
    bounding box. *)
Theorem isRectangularSelection_iff_full_box (cells : list GridCell) :
  NoDup cells ->
  (isRectangularSelection cells = true <->
   cells <> [] /\
   forall c, In c (expandToBoundingBox cells) -> In c cells).
Proof.
  intros Hnd. split.
  - intros Hrect.
    assert (Hne : cells <> []) by (intros ->; discriminate).
    split; [exact Hne |].
    apply (isRectangularSelection_length cells Hne) in Hrect.
    apply NoDup_length_incl; [exact Hnd | lia |].
    intros c. apply cells_in_own_box.
  - intros [Hne Hfull].
    apply (isRectangularSelection_length cells Hne).
    apply Nat.le_antisymm.
    + apply NoDup_incl_length; [exact Hnd |].
      intros c. apply cells_in_own_box.
    + apply NoDup_incl_length; [apply expandToBoundingBox_NoDup | exact Hfull].
Qed.

Lemma isRectangularSelection_iff_full_box_witness :
  isRectangularSelection [mkCell 0 1; mkCell 0 0] = true <->
  [mkCell 0 1; mkCell 0 0] <> [] /\
  forall c, In c (expandToBoundingBox [mkCell 0 1; mkCell 0 0]) ->
            In c [mkCell 0 1; mkCell 0 0].
Proof.
  apply (isRectangularSelection_iff_full_box [mkCell 0 1; mkCell 0 0]).
  repeat constructor; simpl; intuition discriminate.
Defined.

(** X3: the bounding box loses no cell of the selection, lists no cell
    twice, and holds nothing outside the rows and columns the selection
    spans. *)
Theorem expandToBoundingBox_covers (cells : list GridCell) :
  (forall c, In c cells -> In c (expandToBoundingBox cells))
  /\ NoDup (expandToBoundingBox cells)
  /\ (forall c, In c (expandToBoundingBox cells) ->
        exists top bottom left right,
          In top cells /\ In bottom cells /\ In left cells /\ In right cells
          /\ row top <= row c <= row bottom
          /\ column left <= column c <= column right).
Proof.
  split; [intros c; apply cells_in_own_box |].
  split; [apply expandToBoundingBox_NoDup |].
  intros c Hc.
  destruct cells as [| x cells']; [destruct Hc |].
  set (cells := x :: cells') in *.
  assert (Hr : map row cells <> []) by discriminate.
  assert (Hcn : map column cells <> []) by discriminate.
  rewrite expandToBoundingBox_box in Hc by discriminate.
  apply box_In in Hc.
  destruct (proj1 (in_map_iff _ _ _) (Math_min_In _ Hr)) as [t [Et Ht]].
  destruct (proj1 (in_map_iff _ _ _) (Math_max_In _ Hr)) as [b [Eb Hb]].
  destruct (proj1 (in_map_iff _ _ _) (Math_min_In _ Hcn)) as [l [El Hl]].
  destruct (proj1 (in_map_iff _ _ _) (Math_max_In _ Hcn)) as [r [Er Hrr]].
  exists t, b, l, r. repeat split; auto; lia.
Qed.

(** X4: expanding a duplicate-free rectangular selection adds nothing: the
    result is the selection itself, reordered row by row. *)
Theorem expandToBoundingBox_rectangle (cells : list GridCell) :
  NoDup cells -> isRectangularSelection cells = true ->
  Permutation.Permutation (expandToBoundingBox cells) cells.
Proof.
  intros Hnd Hrect.
  assert (Hne : cells <> []) by (intros ->; discriminate).
  apply Permutation.NoDup_Permutation;
    [apply expandToBoundingBox_NoDup | exact Hnd |].
  intros c. split.
  - apply NoDup_length_incl; [exact Hnd | | intros x; apply cells_in_own_box].
    apply (isRectangularSelection_length cells Hne) in Hrect. lia.
  - apply cells_in_own_box.
Qed.

Lemma expandToBoundingBox_rectangle_witness :
  Permutation.Permutation
    (expandToBoundingBox [mkCell 1 1; mkCell 0 1]) [mkCell 1 1; mkCell 0 1].
Proof.
  apply (expandToBoundingBox_rectangle [mkCell 1 1; mkCell 0 1]).
  - repeat constructor; simpl; intuition discriminate.
  - reflexivity.
Defined.

Lemma fold_set_add_fresh (keys acc : list string) :
  NoDup (acc ++ keys) -> fold_left set_add keys acc = acc ++ keys.
Proof.
  revert acc. induction keys as [| k keys IH]; intros acc Hnd; simpl.
  - now rewrite app_nil_r.
  - assert (Hk : ~ In k acc).
    { apply NoDup_remove_2 in Hnd. rewrite in_app_iff in Hnd. tauto. }
    unfold set_add at 2. apply set_has_false in Hk. rewrite Hk.
    replace (acc ++ k :: keys) with ((acc ++ [k]) ++ keys) in *
      by now rewrite <- app_assoc.
    now apply IH.
Qed.

Lemma cellKeySet_NoDup (cells : list GridCell) :
  NoDup cells -> cellKeySet cells = map cellKey cells.
Proof.
  intros Hnd. unfold cellKeySet, Set_of.
  apply (fold_set_add_fresh (map cellKey cells) []). simpl.
  apply Finite.Injective_map_NoDup; [| exact Hnd].
  intros a b. apply cellKey_inj.
Qed.

Lemma zrange_cons (lo hi : Z) :
  lo <= hi -> zrange lo hi = lo :: zrange (lo + 1) hi.
Proof.
  intros Hle. unfold zrange.
  replace (Z.to_nat (hi - lo + 1)) with (S (Z.to_nat (hi - (lo + 1) + 1)))
    by lia.
  simpl. rewrite Z.add_0_r. f_equal.
  rewrite <- seq_shift, map_map. apply map_ext. intros i. lia.
Qed.

Lemma box_head (r0 r1 c0 c1 : Z) :
  r0 <= r1 -> c0 <= c1 ->
  exists rest, box r0 r1 c0 c1 = mkCell r0 c0 :: rest.
Proof.
  intros Hr Hc. unfold box.
  rewrite (zrange_cons r0 r1 Hr). simpl.
  rewrite (zrange_cons c0 c1 Hc). simpl. eauto.
Qed.

(** [growDown] stops below a row that lacks a cell of the column range. *)
Lemma growDown_stop (fuel : nat) (cs : list GridCell) (c0 cEnd rEnd r : Z) :
  growDown fuel (map cellKey cs) c0 cEnd rEnd = Some r ->
  exists c, c0 <= c <= cEnd /\ ~ In (mkCell (r + 1) c) cs.
Proof.
  revert rEnd. induction fuel as [| fuel IH]; intros rEnd; simpl;
    [discriminate |].
  destruct (forallb (fun c => has (map cellKey cs) (rEnd + 1) c)
                    (zrange c0 cEnd)) eqn:E.
  - apply IH.
  - intros [= <-].
    assert (Hex : exists c, In c (zrange c0 cEnd)
                            /\ has (map cellKey cs) (rEnd + 1) c = false).
    { clear - E. induction (zrange c0 cEnd) as [| c l IHl];
        [discriminate |].
      simpl in E. apply andb_false_iff in E as [E | E].
      - exists c. split; [now left | exact E].
      - destruct (IHl E) as [c' [H1 H2]]. exists c'. split; [now right | auto]. }
    destruct Hex as [c [Hin Hhas]]. exists c.
    split; [now apply zrange_In | now apply has_not_In].
Qed.

Lemma splitIntoRectangles_box (r0 r1 c0 c1 : Z) :
  r0 <= r1 -> c0 <= c1 ->
  splitIntoRectangles (box r0 r1 c0 c1) = Some [box r0 r1 c0 c1].
Proof.
  intros Hr Hc.
  destruct (box_head r0 r1 c0 c1 Hr Hc) as [rest Ebox].
  pose proof (box_NoDup r0 r1 c0 c1) as Hnd.
  unfold splitIntoRectangles.
  rewrite (cellKeySet_NoDup _ Hnd), length_map.
  rewrite Ebox in *. cbv zeta.
  set (seed := mkCell r0 c0) in *.
  destruct (split_round seed rest Hnd)
    as [cEnd [rEnd [H1 [H2 [Hr' [Hc' [Hcol Hsub]]]]]]].
  assert (Hin : forall r c, In (mkCell r c) (seed :: rest) <->
                            r0 <= r <= r1 /\ c0 <= c <= c1).
  { intros r c. rewrite <- Ebox, box_In. reflexivity. }
  (* the region found is the whole box *)
  assert (HcEnd : cEnd = c1).
  { destruct (growRight_spec (S (List.length (map cellKey (seed :: rest))))
                (seed :: rest) r0 c0 c0) as [cE [G1 [G2 [G3 G4]]]]; auto.
    - lia.
    - intros c Hcc. apply Hin. lia.
    - rewrite length_map. lia.
    - change (row seed) with r0 in H1. change (column seed) with c0 in H1.
      rewrite G1 in H1. injection H1 as <-.
      assert (c0 <= cE <= c1) by (apply (Hin r0 cE), G3; lia).
      rewrite Hin in G4. lia. }
  assert (HrEnd : rEnd = r1).
  { destruct (growDown_stop _ _ _ _ _ _ H2) as [c [Hcc Hmiss]].
    change (row seed) with r0 in *. change (column seed) with c0 in *.
    assert (r0 <= rEnd <= r1).
    { assert (In (mkCell rEnd c0) (seed :: rest)).
      { apply Hsub, box_In. simpl. lia. }
      apply Hin in H. lia. }
    rewrite Hin in Hmiss. lia. }
  change (map cellKey (seed :: rest))
    with (cellKey seed :: map cellKey rest) in *.
  change (List.length (seed :: rest)) with (S (List.length rest)).
  rewrite splitLoop_step, parseKey_cellKey, H1, H2. cbv zeta.
  rewrite Hcol. subst cEnd rEnd.
  change (row seed) with r0. change (column seed) with c0.
  change (cellKey seed :: map cellKey rest)
    with (map cellKey (seed :: rest)).
  destruct (removeRegion_cells (box r0 r1 c0 c1) (seed :: rest) Hnd)
    as [cs' [E [_ Hin']]].
  rewrite E.
  assert (cs' = []).
  { destruct cs' as [| x cs'']; [reflexivity |].
    exfalso. destruct (proj1 (Hin' x) (or_introl eq_refl)) as [Hx Hn].
    apply Hn. rewrite Ebox. exact Hx. }
  subst cs'. change (map cellKey []) with (@nil string).
  rewrite <- Ebox. destruct (List.length rest); reflexivity.
Qed.

(** X5: a selection that has been expanded to its bounding box is
    partitioned into one rectangle, the box itself. *)
Theorem splitIntoRectangles_rectangle (cells : list GridCell) :
  cells <> [] ->
  splitIntoRectangles (expandToBoundingBox cells)
  = Some [expandToBoundingBox cells].
Proof.
  intros Hne. rewrite (expandToBoundingBox_box cells Hne).
  apply splitIntoRectangles_box; apply Math_min_le_max;
    destruct cells; (congruence || discriminate).
Qed.

Lemma splitIntoRectangles_rectangle_witness :
  splitIntoRectangles (expandToBoundingBox [mkCell 0 0; mkCell 1 2])
  = Some [expandToBoundingBox [mkCell 0 0; mkCell 1 2]].
Proof.
  apply (splitIntoRectangles_rectangle [mkCell 0 0; mkCell 1 2]).
  discriminate.
Defined.

Lemma concat_length_nonempty {A : Type} (ls : list (list A)) :
  Forall (fun l => l <> []) ls ->
  (List.length ls <= List.length (List.concat ls))%nat.
Proof.
  induction 1 as [| l ls Hl _ IH]; simpl; [lia |].
  rewrite length_app. destruct l; [congruence | simpl; lia].
Qed.

(** X6: no rectangle returned by [splitIntoRectangles] is empty, and there
    are at most as many rectangles as input cells. *)
Theorem splitIntoRectangles_pieces (cells : list GridCell)
    (rects : list (list GridCell)) :
  splitIntoRectangles cells = Some rects ->
  Forall (fun r => r <> []) rects
  /\ (List.length rects <= List.length cells)%nat.
Proof.
  destruct cells as [| x cells'].
  - intros [= <-]. split; [constructor | simpl; lia].
  - set (cells := x :: cells'). unfold splitIntoRectangles. cbv zeta.
    destruct (cellKeySet_cells cells) as [cs [E [Hnd Hin]]].
    fold cells. rewrite E, length_map.
    destruct (splitLoop_spec (List.length cs) cs [] Hnd (le_n _))
      as [rs [R1 [R2 [R3 R4]]]].
    simpl in R1. rewrite R1. intros [= <-].
    assert (Hne : Forall (fun r => r <> []) rs).
    { eapply Forall_impl; [| exact R4]. intros r Hr ->. discriminate. }
    split; [exact Hne |].
    pose proof (concat_length_nonempty rs Hne).
    assert (List.length (List.concat rs) <= List.length cells)%nat.
    { apply NoDup_incl_length; [exact R2 |].
      intros c Hc. now apply Hin, R3. }
    lia.
Qed.

Lemma splitIntoRectangles_pieces_witness :
  Forall (fun r => r <> [])
         [[mkCell 0 0; mkCell 0 1]; [mkCell 1 0]]
  /\ (List.length [[mkCell 0 0; mkCell 0 1]; [mkCell 1 0]]
      <= List.length [mkCell 0 0; mkCell 0 1; mkCell 1 0])%nat.
Proof.
  apply (splitIntoRectangles_pieces
           [mkCell 0 0; mkCell 0 1; mkCell 1 0]
           [[mkCell 0 0; mkCell 0 1]; [mkCell 1 0]]).
  vm_compute. reflexivity.
Defined.

(* ================================================================= *)
(** * Further properties of the code generator *)

Lemma replace_spaces_spaceless (in_run : bool) (s : string) :
  spaceless (replace_spaces in_run s) = true.
Proof.
  revert in_run. induction s as [| a s IH]; intros in_run; simpl;
    [reflexivity |].
  destruct (is_space a) eqn:E.
  - destruct in_run; [apply IH | simpl; apply IH].
  - simpl. now rewrite E, IH.
Qed.

Lemma trimStart_spaceless (s : string) :
  spaceless s = true -> trimStart s = s.
Proof.
  destruct s as [| a s]; simpl; [reflexivity |].
  intros H. apply andb_prop in H as [Ha _].
  apply negb_true_iff in Ha. now rewrite Ha.
Qed.

Lemma trimEnd_spaceless (s : string) :
  spaceless s = true -> trimEnd s = s.
Proof.
  induction s as [| a s IH]; simpl; [reflexivity |].
  intros H. apply andb_prop in H as [Ha Hs].
  apply negb_true_iff in Ha. rewrite (IH Hs), Ha. now destruct s.
Qed.

Lemma replace_spaces_id (in_run : bool) (s : string) :
  spaceless s = true -> replace_spaces in_run s = s.
Proof.
  revert in_run. induction s as [| a s IH]; intros in_run; simpl;
    [reflexivity |].
  intros H. apply andb_prop in H as [Ha Hs].
  apply negb_true_iff in Ha. now rewrite Ha, (IH false Hs).
Qed.

Lemma toClassName_spaceless (name : string) :
  spaceless (toClassName name) = true.
Proof.
  unfold toClassName, or_else.
  pose proof (replace_spaces_spaceless false (trim name)) as H.
  destruct (replace_spaces false (trim name)); [reflexivity | exact H].
Qed.

(** X7: [toClassName] always answers a usable class name: never empty,
    free of white space, and left as it is when sanitised again. *)
Theorem toClassName_sanitized (name : string) :
  toClassName name <> EmptyString
  /\ spaceless (toClassName name) = true
  /\ toClassName (toClassName name) = toClassName name.
Proof.
  pose proof (toClassName_nonempty name) as Hne.
  pose proof (toClassName_spaceless name) as Hsp.
  split; [exact Hne |]. split; [exact Hsp |].
  unfold toClassName at 1. unfold trim.
  rewrite (trimStart_spaceless _ Hsp), (trimEnd_spaceless _ Hsp),
    (replace_spaces_id false _ Hsp).
  unfold or_else. destruct (toClassName name); [congruence | reflexivity].
Qed.

(** X8: the line placement of a cell list is that of its bounding box:
    expanding a selection does not move the child. *)
Theorem getChildPlacement_expand (cells : list GridCell) :
  getChildPlacement (expandToBoundingBox cells) = getChildPlacement cells.
Proof.
  destruct cells as [| x cells']; [reflexivity |].
  set (cells := x :: cells').
  assert (Hr : Math_min (map row cells) <= Math_max (map row cells))
    by (apply Math_min_le_max; discriminate).
  assert (Hc : Math_min (map column cells) <= Math_max (map column cells))
    by (apply Math_min_le_max; discriminate).
  rewrite expandToBoundingBox_box by discriminate.
  pose proof (box_nonempty _ _ _ _ Hr Hc) as Hne.
  destruct (box_bounds _ _ _ _ Hr Hc) as [E1 [E2 [E3 E4]]].
  unfold getChildPlacement at 1.
  destruct (box _ _ _ _) eqn:Eb; [congruence |].
  rewrite <- Eb in *. cbv zeta. rewrite E1, E2, E3, E4. reflexivity.
Qed.

(** X9: [generateChildCSSArea] never falls back to the line-based rule:
    the area name it computes is never empty, so every child gets a
    [grid-area] declaration. *)
Theorem generateChildCSSArea_grid_area (ch : GridChild)
    (childClass : option string) :
  generateChildCSSArea ch childClass =
  ("." ++ toClassName (nullish childClass (name ch)) ++ " {" ++ nl
   ++ "  grid-area: " ++ areaOf ch ++ ";" ++ selfDeclarations ch
   ++ nl ++ "}")%string.
Proof.
  unfold generateChildCSSArea, areaOf.
  pose proof (toClassName_nonempty (nullish (areaName ch) (name ch))) as Hne.
  destruct (toClassName (nullish (areaName ch) (name ch)));
    [congruence | reflexivity].
Qed.

Lemma append_nil_r (s : string) : (s ++ EmptyString)%string = s.
Proof. induction s as [| a s IH]; simpl; [reflexivity | now rewrite IH]. Qed.

(** X10: with no child, area mode and line mode write the same text, the
    parent rule alone. *)
Theorem generateFullCSS_no_children (config : BreakpointConfig)
    (useAreas : bool) (parentClass : string) :
  children config = [] ->
  generateFullCSS config useAreas parentClass
  = Some (generateParentGridCSS (grid config) parentClass).
Proof.
  intros Hc. unfold generateFullCSS, generateParentGridCSSWithAreas.
  rewrite Hc. destruct useAreas; cbn [map join]; now rewrite append_nil_r.
Qed.

Lemma generateFullCSS_no_children_witness :
  generateFullCSS (defaultBreakpointConfig 3 4) true "parent"
  = Some (generateParentGridCSS (grid (defaultBreakpointConfig 3 4))
                                "parent").
Proof.
  apply (generateFullCSS_no_children (defaultBreakpointConfig 3 4) true
           "parent").
  reflexivity.
Defined.

(** *** The area matrix *)



Lemma matrix_set_nat_spec (g : list (list Slot)) (r : nat) (c : Z) (v : Slot) :
  (r < List.length g)%nat ->
  exists g',
    matrix_set_nat g r c v = Some g'
    /\ List.length g' = List.length g
    /\ forall r', nth r' g' []
                  = if Nat.eqb r' r then array_set (nth r g []) c v
                    else nth r' g [].
Proof.
  revert r. induction g as [| line g IH]; intros r Hr; simpl in Hr; [lia |].
  destruct r as [| r]; simpl.
  - eexists. split; [reflexivity |]. split; [reflexivity |].
    intros [| r']; reflexivity.
  - destruct (IH r ltac:(lia)) as [g' [E [Hl Hn]]].
    rewrite E. simpl. eexists. split; [reflexivity |].
    split; [simpl; now rewrite Hl |].
    intros [| r']; [reflexivity | apply Hn].
Qed.

Lemma matrix_set_nat_None (g : list (list Slot)) (r : nat) (c : Z) (v : Slot) :
  (List.length g <= r)%nat -> matrix_set_nat g r c v = None.
Proof.
  revert r. induction g as [| line g IH]; intros r Hr; [reflexivity |].
  destruct r as [| r]; simpl in *; [lia |].
  now rewrite IH by lia.
Qed.










(** *** Children that stick out of the grid *)

Lemma matrix_set_lines (g g' : list (list Slot)) (r c : Z) (v : Slot) :
  matrix_set g r c v = Some g' -> List.length g' = List.length g.
Proof.
  unfold matrix_set. destruct (r <? 0); [discriminate |].
  destruct (Nat.lt_ge_cases (Z.to_nat r) (List.length g)) as [Hlt | Hge].
  - destruct (matrix_set_nat_spec g (Z.to_nat r) c v Hlt) as [g1 [E [Hl _]]].
    rewrite E. now intros [= <-].
  - now rewrite matrix_set_nat_None.
Qed.

Lemma matrix_set_outside (g : list (list Slot)) (r c : Z) (v : Slot) :
  r < 0 \/ Z.of_nat (List.length g) <= r -> matrix_set g r c v = None.
Proof.
  intros H. unfold matrix_set. destruct (Z.ltb_spec r 0); [reflexivity |].
  apply matrix_set_nat_None. lia.
Qed.

Lemma paint_cells_None (cs : list GridCell) (v : Slot) :
  fold_left
    (fun acc cell =>
       match acc with
       | None => None
       | Some g1 => matrix_set g1 (row cell) (column cell) v
       end) cs None = None.
Proof. induction cs as [| x cs IH]; simpl; auto. Qed.

Lemma paint_cells_lines (cs : list GridCell) (v : Slot) :
  forall g g',
    fold_left
      (fun acc cell =>
         match acc with
         | None => None
         | Some g1 => matrix_set g1 (row cell) (column cell) v
         end) cs (Some g) = Some g' ->
    List.length g' = List.length g.
Proof.
  induction cs as [| x cs IH]; intros g g'; simpl.
  - now intros [= <-].
  - destruct (matrix_set g (row x) (column x) v) as [g1 |] eqn:E.
    + intros H. rewrite (IH g1 g' H). now apply matrix_set_lines in E.
    + now rewrite paint_cells_None.
Qed.

Lemma paint_cells_outside (cs : list GridCell) (v : Slot) (x : GridCell) :
  forall g,
    In x cs ->
    row x < 0 \/ Z.of_nat (List.length g) <= row x ->
    fold_left
      (fun acc cell =>
         match acc with
         | None => None
         | Some g1 => matrix_set g1 (row cell) (column cell) v
         end) cs (Some g) = None.
Proof.
  induction cs as [| y cs IH]; intros g Hin Hout; [destruct Hin |].
  simpl. destruct (matrix_set g (row y) (column y) v) as [g1 |] eqn:E.
  - destruct Hin as [-> | Hin].
    + now rewrite matrix_set_outside in E.
    + apply IH; [exact Hin |]. apply matrix_set_lines in E. lia.
  - apply paint_cells_None.
Qed.

Lemma paintChild_lines (g g' : list (list Slot)) (ch : GridChild) :
  paintChild g ch = Some g' -> List.length g' = List.length g.
Proof.
  unfold paintChild. destruct (toClassName _); [now intros [= <-] |].
  destruct (cells ch); [now intros [= <-] |].
  unfold paintBox. apply paint_cells_lines.
Qed.

Lemma paintChild_outside (g : list (list Slot)) (ch : GridChild)
    (cell : GridCell) :
  In cell (cells ch) ->
  row cell < 0 \/ Z.of_nat (List.length g) <= row cell ->
  paintChild g ch = None.
Proof.
  intros Hin Hout.
  assert (Hne : cells ch <> []) by (intros E; rewrite E in Hin; destruct Hin).
  rewrite (paintChild_paints g ch Hne). unfold paintBox.
  apply (paint_cells_outside _ _
           (mkCell (row cell) (Math_min (map column (cells ch))))).
  - apply box_In. simpl.
    pose proof (Math_min_le _ _ (in_map row _ _ Hin)).
    pose proof (Math_max_ge _ _ (in_map row _ _ Hin)).
    pose proof (Math_min_le_max (map column (cells ch))) as Hc.
    assert (map column (cells ch) <> [])
      by (destruct (cells ch); [congruence | discriminate]).
    specialize (Hc ltac:(assumption)). lia.
  - exact Hout.
Qed.

Lemma paintChildren_outside (children : list GridChild) (ch : GridChild)
    (cell : GridCell) :
  forall g,
    In ch children -> In cell (cells ch) ->
    row cell < 0 \/ Z.of_nat (List.length g) <= row cell ->
    fold_left
      (fun acc c0 =>
         match acc with
         | None => None
         | Some g1 => paintChild g1 c0
         end) children (Some g) = None.
Proof.
  assert (HNone : forall l : list GridChild,
            fold_left
              (fun acc c0 =>
                 match acc with
                 | None => None
                 | Some g1 => paintChild g1 c0
                 end) l None = None)
    by (induction l; simpl; auto).
  induction children as [| c1 children IH]; intros g Hin Hcell Hout;
    [destruct Hin |].
  simpl. destruct (paintChild g c1) as [g1 |] eqn:E; [| apply HNone].
  destruct Hin as [-> | Hin].
  - now rewrite (paintChild_outside g ch cell Hcell Hout) in E.
  - apply IH; auto. apply paintChild_lines in E. lia.
Qed.

(** X12: when some cell of some child lies above row 0 or below the last
    row, [generateTemplateAreas] throws, and with it the whole area-mode
    style sheet; the line-mode style sheet is still written. *)
Theorem generateFullCSS_child_outside_rows (config : BreakpointConfig)
    (parentClass : string) (ch : GridChild) (cell : GridCell) :
  In ch (children config) -> In cell (cells ch) ->
  row cell < 0 \/ rowCount (grid config) <= row cell ->
  generateTemplateAreas (rowCount (grid config)) (columnCount (grid config))
                        (children config) = None
  /\ generateFullCSS config true parentClass = None
  /\ generateFullCSS config false parentClass <> None.
Proof.
  intros Hin Hcell Hout.
  assert (E : generateTemplateAreas (rowCount (grid config))
                (columnCount (grid config)) (children config) = None).
  { unfold generateTemplateAreas, templateAreaMatrix.
    destruct (_ && _)%bool; [reflexivity |].
    rewrite (paintChildren_outside _ ch cell); auto.
    rewrite repeat_length. lia. }
  split; [exact E |]. split.
  - unfold generateFullCSS, generateParentGridCSSWithAreas.
    destruct (children config); [destruct Hin |]. now rewrite E.
  - unfold generateFullCSS. discriminate.
Qed.

Lemma generateFullCSS_child_outside_rows_witness :
  generateFullCSS
    (currentConfig (setRows (-2) (endSelection "id_1" square_drag)))
    true "parent" = None.
Proof.
  apply (generateFullCSS_child_outside_rows
           (currentConfig (setRows (-2) (endSelection "id_1" square_drag)))
           "parent"
           (mkChild "id_1" "child1"
                    [mkCell 0 0; mkCell 0 1; mkCell 1 0; mkCell 1 1]
                    false None None None)
           (mkCell 1 0)).
  - left. reflexivity.
  - simpl. tauto.
  - right. vm_compute. discriminate.
Defined.

(* ================================================================= *)
(** * Further properties of the state engine *)

(** X13: [nextChildName] answers [child{k}] for the least [k >= 1] such
    that no child bears that name; in particular a name no child bears. *)
Theorem nextChildName_least_unused (children : list GridChild) :
  exists k,
    1 <= k <= Z.of_nat (List.length children) + 1
    /\ nextChildName children = childName k
    /\ ~ In (childName k) (map name children)
    /\ forall i, 1 <= i < k -> In (childName i) (map name children).
Proof.
  destruct (nextChildName_unused children) as [k [H1 [H2 [H3 H4]]]].
  exists k. rewrite H2 in H3. repeat split; auto.
  pose proof (run_length_bound (Set_of (map name children)) childName
                1 (k - 1) (Set_of_NoDup _)) as Hb.
  assert (Z.to_nat (k - 1 - 1 + 1)
          <= List.length (Set_of (map name children)))%nat.
  { apply Hb.
    - unfold childName. intros i j [= E]. now apply string_of_Z_inj.
    - intros i Hi. apply Set_of_In, H4. lia. }
  assert (List.length (Set_of (map name children))
          <= List.length (map name children))%nat.
  { apply NoDup_incl_length; [apply Set_of_NoDup |].
    intros x Hx. now apply Set_of_In. }
  rewrite length_map in *. lia.
Qed.

Lemma pending_has_cell (prev : list GridCell) (cell : GridCell) :
  existsb (fun c => String.eqb (cellKey c) (cellKey cell)) prev = true
  <-> In cell prev.
Proof.
  rewrite existsb_exists. split.
  - intros [x [Hin Hk]]. apply String.eqb_eq, cellKey_inj in Hk. now subst.
  - intros Hin. exists cell. split; [exact Hin | apply String.eqb_refl].
Qed.

(** X14: [addToSelection] keeps the pending selection free of duplicates:
    a cell already pending is not added again (so the operation is
    idempotent), a new cell is appended at the end, and no pending cell is
    dropped. *)
Theorem addToSelection_set_like (cell : GridCell) (e : Engine) :
  (In cell (pendingSelection e) ->
   addToSelection cell e = e)
  /\ (~ In cell (pendingSelection e) ->
      pendingSelection (addToSelection cell e)
      = pendingSelection e ++ [cell])
  /\ addToSelection cell (addToSelection cell e) = addToSelection cell e
  /\ (NoDup (pendingSelection e) ->
      NoDup (pendingSelection (addToSelection cell e))).
Proof.
  assert (Hin : In cell (pendingSelection e) -> addToSelection cell e = e).
  { intros H. unfold addToSelection, setPendingSelection.
    apply pending_has_cell in H. rewrite H. now destruct e. }
  assert (Hout : ~ In cell (pendingSelection e) ->
                 pendingSelection (addToSelection cell e)
                 = pendingSelection e ++ [cell]).
  { intros H. unfold addToSelection, setPendingSelection. simpl.
    destruct (existsb _ (pendingSelection e)) eqn:E; [| reflexivity].
    apply pending_has_cell in E. contradiction. }
  split; [exact Hin |]. split; [exact Hout |]. split.
  - destruct (in_dec GridCell_eq_dec cell (pendingSelection e)) as [H | H].
    + now rewrite !(Hin H).
    + assert (H1 : In cell (pendingSelection (addToSelection cell e))).
      { rewrite (Hout H), in_app_iff. right. now left. }
      unfold addToSelection at 1, setPendingSelection.
      apply pending_has_cell in H1. rewrite H1.
      now destruct (addToSelection cell e).
  - intros Hnd.
    destruct (in_dec GridCell_eq_dec cell (pendingSelection e)) as [H | H].
    + now rewrite (Hin H).
    + rewrite (Hout H). apply NoDup_app; [exact Hnd | |].
      * repeat constructor. intros [].
      * intros x Hx [<- | []]. contradiction.
Qed.

Lemma addToSelection_set_like_witness :
  pendingSelection (addToSelection (mkCell 0 1)
                      (startSelection (mkCell 0 0) (useGridState None)))
  = [mkCell 0 0; mkCell 0 1].
Proof.
  apply (proj1 (proj2 (addToSelection_set_like (mkCell 0 1)
                  (startSelection (mkCell 0 0) (useGridState None))))).
  simpl. intros [H | []]. discriminate.
Defined.

(** The set of locked cells holds the keys of the cells of the locked
    children, and nothing else. *)
Lemma lockedCells_In (config : BreakpointConfig) (k : string) :
  In k (lockedCells config) <->
  exists ch c, In ch (children config) /\ locked ch = true
               /\ In c (cells ch) /\ k = cellKey c.
Proof.
  unfold lockedCells.
  assert (Hinner : forall cs acc,
            In k (fold_left (fun a c => set_add a (cellKey c)) cs acc)
            <-> In k acc \/ exists c, In c cs /\ k = cellKey c).
  { induction cs as [| c cs IH]; intros acc; simpl.
    - split; [auto | intros [H | [c [[] _]]]; exact H].
    - rewrite IH, set_add_In. split.
      + intros [[H | ->] | [c' [H1 H2]]]; eauto.
      + intros [H | [c' [[<- | H1] H2]]]; eauto. }
  assert (Houter : forall chs acc,
            In k (fold_left
                    (fun a ch =>
                       if locked ch
                       then fold_left (fun a' c => set_add a' (cellKey c))
                                      (cells ch) a
                       else a) chs acc)
            <-> In k acc \/
                exists ch c, In ch chs /\ locked ch = true
                             /\ In c (cells ch) /\ k = cellKey c).
  { induction chs as [| ch chs IH]; intros acc; simpl.
    - split; [auto | intros [H | [ch [c [[] _]]]]; exact H].
    - rewrite IH. destruct (locked ch) eqn:El.
      + rewrite Hinner. split.
        * intros [[H | [c [H1 H2]]] | [ch' [c [H1 [H2 [H3 H4]]]]]];
            [auto | right; exists ch, c; auto | right; exists ch', c; auto].
        * intros [H | [ch' [c [[<- | H1] [H2 [H3 H4]]]]]];
            [auto | left; right; eauto | right; exists ch', c; auto].
      + split.
        * intros [H | [ch' [c [H1 [H2 [H3 H4]]]]]];
            [auto | right; exists ch', c; auto].
        * intros [H | [ch' [c [[<- | H1] [H2 [H3 H4]]]]]];
            [auto | congruence | right; exists ch', c; auto]. }
  rewrite Houter. simpl. split; [intros [[] | H]; exact H | auto].
Qed.

(** The overlap test of [endSelection] is exact. *)
Lemma overlap_test (config : BreakpointConfig) (expanded : list GridCell) :
  existsb (fun c => set_has (lockedCells config) (cellKey c)) expanded = false
  <-> forall lk c, In lk (children config) -> locked lk = true ->
                   In c expanded -> ~ In c (cells lk).
Proof.
  split.
  - intros H lk c Hlk Hl Hc Hin.
    assert (existsb (fun c => set_has (lockedCells config) (cellKey c))
                    expanded = true); [| congruence].
    apply existsb_exists. exists c. split; [exact Hc |].
    apply set_has_In, lockedCells_In. exists lk, c. auto.
  - intros H.
    destruct (existsb _ expanded) eqn:E; [| reflexivity].
    apply existsb_exists in E as [c [Hc Hk]].
    apply set_has_In, lockedCells_In in Hk
      as [lk [c' [H1 [H2 [H3 H4]]]]].
    apply cellKey_inj in H4. subst c'. exfalso. exact (H lk c H1 H2 Hc H3).
Qed.

Lemma children_endSelection (newId : string) (e : Engine) :
  children (currentConfig (endSelection newId e))
  = match pendingSelection e with
    | [] => children (currentConfig e)
    | _ =>
        if existsb (fun c => set_has (lockedCells (currentConfig e))
                                     (cellKey c))
                   (expandToBoundingBox (pendingSelection e))
        then children (currentConfig e)
        else children (currentConfig e)
             ++ [mkChild newId (nextChildName (children (currentConfig e)))
                         (expandToBoundingBox (pendingSelection e)) false
                         (if useNamedAreas e
                          then Some (nextChildName
                                       (children (currentConfig e)))
                          else None) None None]
    end.
Proof.
  unfold endSelection. cbn [pendingSelection setIsSelecting].
  destruct (pendingSelection e) as [| p ps] eqn:Ep; [reflexivity |].
  unfold currentConfig.
  cbn [state setPendingSelection setHistoryForward setState pushHistory
       setHistory setIsSelecting useNamedAreas].
  unfold endSelection_state, active_config.
  destruct (existsb _ (expandToBoundingBox (p :: ps))); [reflexivity |].
  unfold with_active_config. cbn [breakpoints activeBreakpoint].
  now rewrite bp_get_set.
Qed.

(** X15: a commit that meets no locked cell appends exactly one child to
    the active breakpoint: unlocked, named by [nextChildName] with a name
    no other child bears, holding the bounding box of the pending cells (a
    rectangle that contains them all); the earlier children stay as they
    were and the pending selection is emptied. *)
Theorem endSelection_commit (newId : string) (e : Engine) :
  pendingSelection e <> [] ->
  existsb (fun c => set_has (lockedCells (currentConfig e)) (cellKey c))
          (expandToBoundingBox (pendingSelection e)) = false ->
  exists child,
    children (currentConfig (endSelection newId e))
    = children (currentConfig e) ++ [child]
    /\ id child = newId
    /\ name child = nextChildName (children (currentConfig e))
    /\ ~ In (name child) (map name (children (currentConfig e)))
    /\ locked child = false
    /\ cells child = expandToBoundingBox (pendingSelection e)
    /\ isRectangularSelection (cells child) = true
    /\ (forall c, In c (pendingSelection e) -> In c (cells child))
    /\ pendingSelection (endSelection newId e) = []
    /\ isSelecting (endSelection newId e) = false.
Proof.
  intros Hne Hov.
  exists (mkChild newId (nextChildName (children (currentConfig e)))
                  (expandToBoundingBox (pendingSelection e)) false
                  (if useNamedAreas e
                   then Some (nextChildName (children (currentConfig e)))
                   else None) None None).
  rewrite children_endSelection, Hov.
  destruct (pendingSelection e) as [| p ps] eqn:Ep; [congruence |].
  split; [reflexivity |]. cbn [id name locked cells].
  split; [reflexivity |]. split; [reflexivity |].
  split.
  { destruct (nextChildName_unused (children (currentConfig e)))
      as [k [_ [_ [H _]]]]. exact H. }
  split; [reflexivity |]. split; [reflexivity |].
  split.
  { rewrite expandToBoundingBox_box by discriminate.
    apply isRectangularSelection_box; apply Math_min_le_max; discriminate. }
  split; [intros c; apply cells_in_own_box |].
  unfold endSelection. cbn [pendingSelection setIsSelecting]. rewrite Ep.
  split; reflexivity.
Qed.

Lemma endSelection_commit_witness :
  exists child,
    children (currentConfig (endSelection "id_1" gap_drag))
    = children (currentConfig gap_drag) ++ [child]
    /\ id child = "id_1"
    /\ name child = nextChildName (children (currentConfig gap_drag))
    /\ ~ In (name child) (map name (children (currentConfig gap_drag)))
    /\ locked child = false
    /\ cells child = expandToBoundingBox (pendingSelection gap_drag)
    /\ isRectangularSelection (cells child) = true
    /\ (forall c, In c (pendingSelection gap_drag) -> In c (cells child))
    /\ pendingSelection (endSelection "id_1" gap_drag) = []
    /\ isSelecting (endSelection "id_1" gap_drag) = false.
Proof.
  apply (endSelection_commit "id_1" gap_drag).
  - discriminate.
  - reflexivity.
Defined.

(** X16: whatever the pending selection, a child that [endSelection] adds
    to the active breakpoint shares no cell with a locked child of that
    breakpoint. *)
Theorem endSelection_spares_locked (newId : string) (e : Engine)
    (added lk : GridChild) (c : GridCell) :
  In added (children (currentConfig (endSelection newId e))) ->
  ~ In added (children (currentConfig e)) ->
  In lk (children (currentConfig e)) -> locked lk = true ->
  In c (cells added) -> ~ In c (cells lk).
Proof.
  rewrite children_endSelection.
  destruct (pendingSelection e) as [| p ps] eqn:Ep; [tauto |].
  destruct (existsb _ (expandToBoundingBox (p :: ps))) eqn:Eov; [tauto |].
  intros Hin Hnew Hlk Hl Hc.
  apply in_app_iff in Hin as [Hin | [<- | []]]; [contradiction |].
  cbn [cells] in Hc.
  exact (proj1 (overlap_test _ _) Eov lk c Hlk Hl Hc).
Qed.

Lemma endSelection_spares_locked_witness :
  ~ In (mkCell 1 1) [mkCell 0 0].
Proof.
  apply (endSelection_spares_locked "id_2"
           (startSelection (mkCell 1 1)
              (setChildLock "id_1" true
                 (endSelection "id_1"
                    (startSelection (mkCell 0 0) (useGridState None)))))
           (mkChild "id_2" "child2" [mkCell 1 1] false None None None)
           (mkChild "id_1" "child1" [mkCell 0 0] true None None None)
           (mkCell 1 1)).
  - vm_compute. right. left. reflexivity.
  - vm_compute. intros [H | []]. discriminate.
  - vm_compute. left. reflexivity.
  - reflexivity.
  - left. reflexivity.
Defined.

(** *** Breakpoint isolation *)

Lemma bp_get_set_other (bps : Breakpoints) (a bp : BreakpointId)
    (cfg : BreakpointConfig) :
  bp <> a -> bp_get (bp_set bps a cfg) bp = bp_get bps bp.
Proof. destruct a, bp; simpl; congruence. Qed.

Lemma with_active_config_local (s : LayoutState) (cfg : BreakpointConfig) :
  activeBreakpoint (with_active_config s cfg) = activeBreakpoint s
  /\ forall bp, bp <> activeBreakpoint s ->
       bp_get (breakpoints (with_active_config s cfg)) bp
       = bp_get (breakpoints s) bp.
Proof.
  split; [reflexivity |]. intros bp Hbp. simpl.
  now apply bp_get_set_other.
Qed.

Lemma endSelection_state_local (expanded : list GridCell) (newId : string)
    (named : bool) :
  local_update (endSelection_state expanded newId named).
Proof.
  intros s. unfold endSelection_state.
  destruct (existsb _ expanded); [now split | apply with_active_config_local].
Qed.

(** X17: every operation of the hook other than the switch of breakpoint,
    [undo], [redo] and [importLayout] leaves the active breakpoint id and
    the configurations of the two other breakpoints as they were. *)
Theorem edits_are_local {text : Type} {H : JSONHost text}
    (op : Op text) (e e' : Engine) (bp : BreakpointId) :
  is_edit op -> run op e = Some e' ->
  bp <> activeBreakpoint (state e) ->
  activeBreakpoint (state e') = activeBreakpoint (state e)
  /\ bp_get (breakpoints (state e')) bp = bp_get (breakpoints (state e)) bp.
Proof.
  intros Hedit Hrun Hbp.
  destruct op; simpl in Hedit; try contradiction;
    simpl in Hrun; injection Hrun as <-;
    try (split; reflexivity);
    try (split; [reflexivity | simpl; now apply bp_get_set_other]).
  - (* endSelection *)
    unfold endSelection. cbn [pendingSelection setIsSelecting].
    destruct (pendingSelection e); [split; reflexivity |].
    cbn [state setPendingSelection setHistoryForward setState pushHistory
         setHistory setIsSelecting].
    destruct (endSelection_state_local
                (expandToBoundingBox (g :: l)) newId (useNamedAreas e)
                (state e)) as [H1 H2].
    split; [exact H1 | now apply H2].
  - (* deleteChild *)
    unfold deleteChild.
    destruct (option_string_eqb (selectedChildId e) i);
      (split; [reflexivity | simpl; now apply bp_get_set_other]).
Qed.

Lemma edits_are_local_witness :
  bp_get (breakpoints (state (setRows 5 (useGridState None)))) mobile
  = bp_get (breakpoints (state (useGridState None))) mobile.
Proof.
  apply (@edits_are_local _ denotation_host (OpSetRows 5)
           (useGridState None) (setRows 5 (useGridState None)) mobile).
  - exact I.
  - reflexivity.
  - discriminate.
Defined.

(** *** Size lists and track counts *)

Lemma resizeSizes_length (sizes : list TrackSize) (count delta : Z) :
  Z.of_nat (List.length sizes) = count ->
  Z.of_nat (List.length (resizeSizes sizes count (clampCount count delta)))
  = clampCount count delta.
Proof.
  intros Hlen. pose proof (clampCount_range count delta) as Hr.
  unfold resizeSizes.
  destruct (Z.gtb_spec (clampCount count delta) count).
  - rewrite length_app, repeat_length. lia.
  - rewrite length_firstn. lia.
Qed.

Lemma grid_mutate (m : Mutation) (e : Engine) :
  match m with
  | MSetRows _ | MSetColumns _ => True
  | _ => grid (currentConfig (mutate m e)) = grid (currentConfig e)
  end.
Proof.
  destruct m; simpl; trivial.
  - unfold deleteChild, currentConfig.
    destruct (option_string_eqb (selectedChildId e) i); simpl;
      now rewrite bp_get_set.
  - unfold endSelection, currentConfig.
    cbn [pendingSelection setIsSelecting].
    destruct (pendingSelection e); [reflexivity |].
    cbn [state setPendingSelection setHistoryForward setState pushHistory
         setHistory setIsSelecting].
    unfold endSelection_state.
    destruct (existsb _ _); [reflexivity |]. simpl.
    now rewrite bp_get_set.
Qed.

(** X18: the default grids have one size per track, and every operation
    that pushes history keeps it so: after [setRows] or [setColumns] the
    size lists are again as long as the track counts, and [deleteChild] and
    [endSelection] do not touch the grid. *)
Theorem sizes_stay_consistent (m : Mutation) (e : Engine) :
  (forall rows cols, 0 <= rows -> 0 <= cols ->
     sizes_consistent (defaultGridDefinition rows cols))
  /\ (sizes_consistent (grid (currentConfig e)) ->
      sizes_consistent (grid (currentConfig (mutate m e)))).
Proof.
  split.
  - intros rows cols Hr Hc. unfold sizes_consistent, defaultGridDefinition,
      Array_from. simpl. rewrite !repeat_length. lia.
  - intros [Hrows Hcols]. pose proof (grid_mutate m e) as Hg.
    destruct m; try (rewrite Hg; now split).
    + simpl. rewrite grid_setRows. cbv zeta. split; simpl.
      * now apply resizeSizes_length.
      * exact Hcols.
    + simpl. rewrite grid_setColumns. cbv zeta. split; simpl.
      * exact Hrows.
      * now apply resizeSizes_length.
Qed.

Lemma sizes_stay_consistent_witness :
  sizes_consistent
    (grid (currentConfig (mutate (MSetRows (-2)) (useGridState None)))).
Proof.
  apply (proj2 (sizes_stay_consistent (MSetRows (-2)) (useGridState None))).
  split; reflexivity.
Defined.

(** *** Children by id *)

Lemma bp_set_get (bps : Breakpoints) (bp : BreakpointId) :
  bp_set bps bp (bp_get bps bp) = bps.
Proof. now destruct bps, bp. Qed.

Lemma with_active_config_same (s : LayoutState) :
  with_active_config s
    (mkConfig (grid (active_config s)) (children (active_config s))) = s.
Proof.
  unfold with_active_config, active_config.
  destruct (bp_get (breakpoints s) (activeBreakpoint s)) as [g chs] eqn:E.
  simpl. rewrite <- E, bp_set_get. now destruct s.
Qed.

Lemma map_update_absent (i : string) (updater : GridChild -> GridChild)
    (chs : list GridChild) :
  (forall ch, In ch chs -> id ch <> i) ->
  map (fun c => if String.eqb (id c) i then updater c else c) chs = chs.
Proof.
  induction chs as [| ch chs IH]; intros H; simpl; [reflexivity |].
  rewrite IH by (intros c Hc; apply H; now right).
  destruct (String.eqb_spec (id ch) i) as [E | _]; [| reflexivity].
  exfalso. exact (H ch (or_introl eq_refl) E).
Qed.

(** X19: [updateChild] on an id that no child of the active breakpoint
    bears changes nothing at all: neither the layout state nor the
    stacks. *)
Theorem updateChild_absent (i : string) (updater : GridChild -> GridChild)
    (e : Engine) :
  (forall ch, In ch (children (currentConfig e)) -> id ch <> i) ->
  updateChild i updater e = e.
Proof.
  intros Habs. unfold updateChild, setState.
  unfold currentConfig in Habs. fold (active_config (state e)) in Habs.
  rewrite (map_update_absent i updater _ Habs), with_active_config_same.
  now destruct e.
Qed.

Lemma updateChild_absent_witness :
  updateChild "id_9" (fun c => c) (useGridState None) = useGridState None.
Proof.
  apply (updateChild_absent "id_9" (fun c => c) (useGridState None)).
  intros ch [].
Defined.

(** X20: after [deleteChild i] no child of the active breakpoint bears the
    id [i]; the children with another id stay, in their order; the grid is
    untouched; the selection is dropped exactly when it was on [i]; and the
    state before the call is pushed on the undo stack even when no child
    bore the id. *)
Theorem deleteChild_removes (i : string) (e : Engine) :
  children (currentConfig (deleteChild i e))
  = filter (fun c => negb (String.eqb (id c) i)) (children (currentConfig e))
  /\ (forall ch, In ch (children (currentConfig (deleteChild i e))) <->
                 In ch (children (currentConfig e)) /\ id ch <> i)
  /\ grid (currentConfig (deleteChild i e)) = grid (currentConfig e)
  /\ selectedChildId (deleteChild i e)
     = (if option_string_eqb (selectedChildId e) i then None
        else selectedChildId e)
  /\ history (deleteChild i e) = history (pushHistory (state e) e)
  /\ ((forall ch, In ch (children (currentConfig e)) -> id ch <> i) ->
      state (deleteChild i e) = state e).
Proof.
  assert (Hch : children (currentConfig (deleteChild i e))
                = filter (fun c => negb (String.eqb (id c) i))
                         (children (currentConfig e))).
  { unfold deleteChild, currentConfig.
    destruct (option_string_eqb (selectedChildId e) i); simpl;
      now rewrite bp_get_set. }
  split; [exact Hch |]. split.
  { intros ch. rewrite Hch, filter_In, negb_true_iff, String.eqb_neq.
    reflexivity. }
  split; [exact (grid_mutate (MDeleteChild i) e) |].
  split.
  { unfold deleteChild.
    destruct (option_string_eqb (selectedChildId e) i); reflexivity. }
  split.
  { unfold deleteChild.
    destruct (option_string_eqb (selectedChildId e) i); reflexivity. }
  intros Habs.
  assert (Hst : state (deleteChild i e) = deleteChild_state i (state e)).
  { unfold deleteChild.
    destruct (option_string_eqb (selectedChildId e) i); reflexivity. }
  rewrite Hst. unfold deleteChild_state.
  unfold currentConfig in Habs. fold (active_config (state e)) in Habs.
  replace (filter _ (children (active_config (state e))))
    with (children (active_config (state e))).
  - apply with_active_config_same.
  - symmetry. apply forallb_filter_id. apply forallb_forall.
    intros ch Hin. apply negb_true_iff, String.eqb_neq. now apply Habs.
Qed.

Lemma deleteChild_removes_witness :
  state (deleteChild "id_9" (useGridState None)) = state (useGridState None).
Proof.
  apply (deleteChild_removes "id_9" (useGridState None)).
  intros ch [].
Defined.

(** *** The two stacks *)

(** X21: [redo] undoes [undo] and [undo] undoes [redo]: whenever the first
    of the two has a snapshot to take, the pair brings back the layout
    state and both stacks; only the selected child is lost, to [undo]. *)
Theorem undo_redo_inverse (e : Engine) :
  (history e <> [] -> redo (undo e) = setSelectedChildId None e)
  /\ (historyForward e <> [] -> undo (redo e) = setSelectedChildId None e).
Proof.
  split.
  - intros Hh.
    destruct (List.rev (history e)) as [| prev t] eqn:E.
    { exfalso. apply Hh. rewrite <- (rev_involutive (history e)), E.
      reflexivity. }
    apply rev_cons_snoc in E.
    rewrite (undo_snoc e _ _ E).
    rewrite (redo_cons _ (state e) (historyForward e)) by reflexivity.
    cbn [state history selectedChildId pendingSelection isSelecting
         useNamedAreas]. rewrite <- E. reflexivity.
  - intros Hf.
    destruct (historyForward e) as [| next f] eqn:E; [congruence |].
    rewrite (redo_cons e next f E).
    rewrite (undo_snoc _ (history e) (state e)) by reflexivity.
    cbn [state historyForward selectedChildId pendingSelection isSelecting
         useNamedAreas]. rewrite <- E. reflexivity.
Qed.

Lemma undo_redo_inverse_witness :
  redo (undo (setRows 1 (useGridState None)))
  = setSelectedChildId None (setRows 1 (useGridState None)).
Proof.
  apply (proj1 (undo_redo_inverse (setRows 1 (useGridState None)))).
  discriminate.
Defined.

(** *** The JSON form of a state *)

(** X22: the JSON value written for a layout state is read back as that
    state, so two states with the same JSON value are the same state and
    [deepCloneState] returns a state equal to the one it is given. *)
Theorem layout_json_roundtrip (s s' : LayoutState) :
  layout_of_json (json_of_layout s) = Some s
  /\ (json_of_layout s = json_of_layout s' -> s = s')
  /\ deepCloneState s = s.
Proof.
  split; [apply layout_of_json_of_layout |].
  split; [| apply deepCloneState_id].
  intros E.
  assert (E' : layout_of_json (json_of_layout s)
               = layout_of_json (json_of_layout s')) by now rewrite E.
  rewrite !layout_of_json_of_layout in E'. congruence.
Qed.

(** X23: an import that is accepted replaces the layout state by the
    layout of the parsed text, empties both history stacks and drops the
    selected child; the pending selection, the selection flag and the
    named-area flag are left as they were. *)
Theorem importLayout_accepted {text : Type} {H : JSONHost text}
    (t : text) (e e' : Engine) :
  importLayout t e = Accepted e' ->
  (exists data layout,
     JSON_parse t = Some data
     /\ field "layout" data = Some layout
     /\ layout_of_json layout = Some (state e'))
  /\ history e' = [] /\ historyForward e' = []
  /\ selectedChildId e' = None
  /\ pendingSelection e' = pendingSelection e
  /\ isSelecting e' = isSelecting e
  /\ useNamedAreas e' = useNamedAreas e.
Proof.
  unfold importLayout.
  destruct (JSON_parse t) as [data |]; [| discriminate].
  unfold importData.
  destruct data as [| b | n | s | items | m]; try discriminate;
    cbn [get]; try (destruct (_ || _)%bool; discriminate).
  destruct (assoc "version" m) as [v |];
    destruct (assoc "layout" m) as [l |] eqn:El;
    try (destruct (_ || _)%bool; discriminate).
  - destruct (_ || _)%bool; [discriminate |].
    destruct (negb _); [discriminate |].
    destruct (layout_of_json l) as [s |] eqn:Es; [| discriminate].
    intros [= <-]. rewrite deepCloneState_id.
    split; [exists (JObj m), l; repeat split; auto |].
    repeat split.
  - destruct (_ || _)%bool; [discriminate |].
    destruct (negb _); [discriminate |].
    destruct (layout_of_json l) as [s |] eqn:Es; [| discriminate].
    intros [= <-]. rewrite deepCloneState_id.
    split; [exists (JObj m), l; repeat split; auto |].
    repeat split.
Qed.

Lemma importLayout_accepted_witness :
  history
    (mkEngine (state (useGridState None)) [] [] None [] false false) = [].
Proof.
  apply (@importLayout_accepted _ denotation_host
           (@exportLayout _ denotation_host "2026-01-01T00:00:00.000Z"
              (useGridState None))
           (setRows 1 (useGridState None))
           (mkEngine (state (useGridState None)) [] [] None [] false false)).
  reflexivity.
Defined.

(* ================================================================= *)
(** * Further properties: key sets and the responsive style sheet *)

(** X24: [cellKeySet] holds the key of every input cell and no other key,
    each once, in the order the cells first occur; so its size is at most
    the number of cells, and exactly that number when no cell is
    repeated. *)
Theorem cellKeySet_distinct (cells : list GridCell) :
  NoDup (cellKeySet cells)
  /\ (forall c, set_has (cellKeySet cells) (cellKey c) = true <-> In c cells)
  /\ (forall k, In k (cellKeySet cells) ->
                exists c, In c cells /\ k = cellKey c)
  /\ (List.length (cellKeySet cells) <= List.length cells)%nat
  /\ (NoDup cells -> cellKeySet cells = map cellKey cells).
Proof.
  destruct (cellKeySet_cells cells) as [cs [E [Hnd Hin]]].
  split; [apply Set_of_NoDup |]. split.
  { intros c. rewrite E, set_has_In, in_map_cellKey. apply Hin. }
  split.
  { intros k Hk. rewrite E in Hk. apply in_map_iff in Hk as [c [<- Hc]].
    exists c. split; [now apply Hin | reflexivity]. }
  split.
  { rewrite E, length_map. apply NoDup_incl_length; [exact Hnd |].
    intros c Hc. now apply Hin. }
  apply cellKeySet_NoDup.
Qed.

Lemma traverse_parts_None {A B : Type} (f : A -> option B) (l : list A) :
  traverse_parts f l = None <-> exists x, In x l /\ f x = None.
Proof.
  induction l as [| a l IH]; simpl.
  - split; [discriminate | intros [x [[] _]]].
  - destruct (f a) as [y |] eqn:Ea.
    + destruct (traverse_parts f l) as [ys |].
      * split; [discriminate |].
        intros [x [[<- | Hx] Hf]]; [congruence |].
        assert (Hn : Some ys = None) by (apply IH; eauto). discriminate.
      * split; [| reflexivity]. intros _.
        destruct (proj1 IH eq_refl) as [x [Hx Hf]]. eauto.
    + split; [| reflexivity]. intros _. exists a. auto.
Qed.

(** X25: the responsive style sheet does not depend on which breakpoint is
    active, and it fails exactly when the style sheet of one of the three
    breakpoints fails; in line mode it never does. *)
Theorem generateResponsiveCSS_all_breakpoints (st : LayoutState)
    (useAreas : bool) (parentClass : string) (bp : BreakpointId) :
  generateResponsiveCSS (mkLayout bp (breakpoints st)) useAreas parentClass
  = generateResponsiveCSS st useAreas parentClass
  /\ (generateResponsiveCSS st useAreas parentClass = None <->
      exists b, generateFullCSS (bp_get (breakpoints st) b) useAreas
                                parentClass = None)
  /\ generateResponsiveCSS st false parentClass <> None.
Proof.
  split; [reflexivity |].
  assert (Hiff : generateResponsiveCSS st useAreas parentClass = None <->
                 exists b, generateFullCSS (bp_get (breakpoints st) b)
                             useAreas parentClass = None).
  { unfold generateResponsiveCSS.
    destruct (traverse_parts _ _) as [parts |] eqn:E.
    - split; [discriminate |]. intros [b Hb].
      assert (Hn : traverse_parts (responsivePart st useAreas parentClass)
                     [mobile; tablet; desktop] = None); [| congruence].
      apply traverse_parts_None. exists b. split.
      + destruct b; simpl; auto.
      + unfold responsivePart. now rewrite Hb.
    - split; [| reflexivity]. intros _.
      apply traverse_parts_None in E as [b [_ Hb]]. exists b.
      unfold responsivePart in Hb.
      destruct (generateFullCSS _ _ _); [| reflexivity].
      destruct b; discriminate. }
  split; [exact Hiff |].
  intros Hn. clear Hiff.
  unfold generateResponsiveCSS in Hn.
  destruct (traverse_parts _ _) eqn:E; [discriminate |].
  apply traverse_parts_None in E as [b [_ Hb]].
  unfold responsivePart, generateFullCSS in Hb. destruct b; discriminate.
Qed.
